(** * Lineage extractor: a shallow embedding of [src/lineage_extractor.py]

    The development follows the Python module top to bottom:
    - [Text]: Python [str] values, the character classes of [re] and
      [str.upper], restricted to ASCII text;
    - [Regex]: the five table patterns of [_parse_sql_tables] and
      [re.findall];
    - [PyDict], [PySet]: insertion-ordered dictionaries and sets;
    - [Xml]: the [ElementTree] elements and the [findall] paths used;
    - [Extractor]: [SSISLineageExtractor];
    - [Store]: the property graph behind [LineageGraphBuilder], with the two
      Cypher patterns of [get_lineage_for_asset];
    - [Batch]: the loop of [main].

    [Views], [Clauses], [Fixtures], [Trace], [Shape], [StoreShape],
    [Reach], [Edges] and [Statements] hold the vocabulary of the
    statements and of their proofs; [Connections] and [Program] model what
    [_extract_connections] logs and the end of [main].  The properties
    follow, module by module.  Other logging is not modelled. *)

From Stdlib Require Import List String Ascii Bool Arith Lia Permutation.
Import ListNotations.

Local Open Scope string_scope.
Local Open Scope list_scope.
Local Open Scope nat_scope.

(* ================================================================= *)
(** ** Text *)

Module Text.

(** A Python [str] is a Rocq [string]; the regular-expression engine works
    on its character list.  Characters are ASCII code points: on them
    [str.upper] maps [a..z] to [A..Z], [\w] is [[A-Za-z0-9_]] and [\s] is
    the set recognised by [str.isspace] (tab to carriage return, the four
    separators 0x1c..0x1f, and the blank). *)

Definition chars : Type := list ascii.

Definition code (c : ascii) : nat := nat_of_ascii c.

Definition in_range (lo hi : nat) (c : ascii) : bool :=
  (lo <=? code c) && (code c <=? hi).

Definition is_lower (c : ascii) : bool := in_range 97 122 c.
Definition is_upper (c : ascii) : bool := in_range 65 90 c.
Definition is_digit (c : ascii) : bool := in_range 48 57 c.

(** [\w] *)
Definition is_word (c : ascii) : bool :=
  is_lower c || is_upper c || is_digit c || (code c =? 95).

(** [\s] *)
Definition is_space (c : ascii) : bool :=
  in_range 9 13 c || in_range 28 31 c || (code c =? 32).

Definition upper_char (c : ascii) : ascii :=
  if is_lower c then ascii_of_nat (code c - 32) else c.

Definition upper_chars (s : chars) : chars := map upper_char s.

(** [s.upper()] *)
Definition upper (s : string) : string :=
  string_of_list_ascii (upper_chars (list_ascii_of_string s)).

(** [needle in s] for strings *)
Fixpoint prefix_of (p s : chars) : bool :=
  match p, s with
  | [], _ => true
  | _ :: _, [] => false
  | a :: p', b :: s' => Ascii.eqb a b && prefix_of p' s'
  end.

Fixpoint contains_chars (needle s : chars) : bool :=
  prefix_of needle s ||
  match s with
  | [] => false
  | _ :: s' => contains_chars needle s'
  end.

Definition contains (needle s : string) : bool :=
  contains_chars (list_ascii_of_string needle) (list_ascii_of_string s).

(** [s[:n]] *)
Definition slice_to (n : nat) (s : string) : string :=
  string_of_list_ascii (firstn n (list_ascii_of_string s)).

(** [a or b] where [a] may be [None]: [None] and [""] are falsy. *)
Definition or_else (a : option string) (b : string) : string :=
  match a with
  | Some (String c r) => String c r
  | _ => b
  end.

End Text.

(* ================================================================= *)
(** ** Regular expressions of [_parse_sql_tables] *)

Module Regex.
Import Text.

(** Every pattern of [_parse_sql_tables] has the shape
    [K1\s+ ... Kn\s+(\w+(?:\.\w+)?)]: keywords, each followed by a
    non-empty run of white space, then one captured identifier.  A pattern
    is represented by its keyword list.

    The quantifiers are greedy, and nothing that follows [\s+] can start
    with white space, nothing that follows [\w+] can start with a word
    character: so the backtracking matcher of [re] succeeds exactly when
    the maximal runs below do, with the same capture. *)

Definition pattern : Type := list chars.

Definition kw (s : string) : chars := list_ascii_of_string s.

Definition from_pattern   : pattern := [kw "FROM"].
Definition join_pattern   : pattern := [kw "JOIN"].
Definition insert_pattern : pattern := [kw "INSERT"; kw "INTO"].
Definition update_pattern : pattern := [kw "UPDATE"].
Definition delete_pattern : pattern := [kw "DELETE"; kw "FROM"].

(** Longest prefix whose characters satisfy [p], and the rest. *)
Fixpoint span (p : ascii -> bool) (s : chars) : chars * chars :=
  match s with
  | [] => ([], [])
  | c :: s' =>
      if p c then let '(a, b) := span p s' in (c :: a, b) else ([], s)
  end.

(** A literal: the rest of [s] after the prefix [k]. *)
Fixpoint lit (k s : chars) : option chars :=
  match k, s with
  | [], _ => Some s
  | _ :: _, [] => None
  | a :: k', b :: s' => if Ascii.eqb a b then lit k' s' else None
  end.

(** [\s+] *)
Definition ws_plus (s : chars) : option chars :=
  match span is_space s with
  | ([], _) => None
  | (_ :: _, r) => Some r
  end.

(** [(\w+(?:\.\w+)?)]: the capture and the rest. *)
Definition ident (s : chars) : option (chars * chars) :=
  match span is_word s with
  | ([], _) => None
  | (w, r) =>
      match r with
      | "."%char :: r' =>
          match span is_word r' with
          | ([], _) => Some (w, r)
          | (w2, r2) => Some (w ++ "."%char :: w2, r2)
          end
      | _ => Some (w, r)
      end
  end.

(** A match of the whole pattern at the start of [s]. *)
Fixpoint match_here (p : pattern) (s : chars) : option (chars * chars) :=
  match p with
  | [] => ident s
  | k :: p' =>
      match lit k s with
      | None => None
      | Some r =>
          match ws_plus r with
          | None => None
          | Some r' => match_here p' r'
          end
      end
  end.

(** [re.findall]: scan left to right; after a match at a position the scan
    resumes where the match ended ([skip] counts the characters of the
    match still to be passed over).  A match of these patterns is never
    empty. *)
Fixpoint scan (p : pattern) (s : chars) (skip : nat) : list chars :=
  match s with
  | [] => []
  | _ :: s' =>
      match skip with
      | S k => scan p s' k
      | O =>
          match match_here p s with
          | Some (cap, rest) =>
              cap :: scan p s' (List.length s - List.length rest - 1)
          | None => scan p s' 0
          end
      end
  end.

Definition findall (p : pattern) (s : string) : list string :=
  map string_of_list_ascii (scan p (list_ascii_of_string s) 0).

End Regex.


(* ================================================================= *)
(** ** Python containers *)

Module PyDict.

(** A [dict] with string keys keeps its keys in insertion order, and
    [values()] is read in that order: an association list, in which
    assigning to a key that is present replaces the value in place and
    assigning to a new key appends it. *)
Definition dict (V : Type) : Type := list (string * V).

Definition empty {V : Type} : dict V := [].

Fixpoint get {V : Type} (k : string) (d : dict V) : option V :=
  match d with
  | [] => None
  | (k', v) :: d' => if String.eqb k k' then Some v else get k d'
  end.

(** [d[k] = v] *)
Fixpoint set {V : Type} (k : string) (v : V) (d : dict V) : dict V :=
  match d with
  | [] => [(k, v)]
  | (k', v') :: d' =>
      if String.eqb k k' then (k', v) :: d' else (k', v') :: set k v d'
  end.

Definition keys {V : Type} (d : dict V) : list string := map fst d.
Definition values {V : Type} (d : dict V) : list V := map snd d.

(** [d.update(other)] *)
Definition update {V : Type} (d other : dict V) : dict V :=
  fold_left (fun acc kv => set (fst kv) (snd kv) acc) other d.

(** A run of assignments [d[k] = v], in the order of the list. *)
Definition set_all {V : Type} (w : list (string * V)) (d : dict V) : dict V :=
  fold_left (fun acc kv => set (fst kv) (snd kv) acc) w d.

End PyDict.

Module PySet.

(** A [set] of strings, as the duplicate-free list of its elements in the
    order they were first added.  Python does not specify the order in
    which a set of strings is iterated; the order taken here decides only
    where the tables of one query task enter [assets]. *)
Definition t : Type := list string.

Definition mem (x : string) (s : t) : bool := existsb (String.eqb x) s.

Definition add (x : string) (s : t) : t := if mem x s then s else s ++ [x].

(** [s.update(xs)] *)
Definition update (s : t) (xs : list string) : t :=
  fold_left (fun acc x => add x acc) xs s.

End PySet.

(* ================================================================= *)
(** ** ElementTree *)

Module Xml.

#[warnings="-register-all"]
Inductive Element : Type :=
  Elem (tag : string) (attrib : list (string * string))
       (text : option string) (children : list Element).

Definition tag (e : Element) : string :=
  match e with Elem t _ _ _ => t end.
Definition attrib (e : Element) : list (string * string) :=
  match e with Elem _ a _ _ => a end.
Definition text (e : Element) : option string :=
  match e with Elem _ _ x _ => x end.
Definition children (e : Element) : list Element :=
  match e with Elem _ _ _ c => c end.

(** [e.get(key)] *)
Definition get (e : Element) (key : string) : option string :=
  PyDict.get key (attrib e).

(** [e.get(key, default)] *)
Definition get_default (e : Element) (key default : string) : string :=
  match get e key with
  | Some v => v
  | None => default
  end.

(** [e.iter()]: the element and all its descendants, in document order. *)
Fixpoint iter (e : Element) : list Element :=
  match e with
  | Elem _ _ _ cs => e :: flat_map iter cs
  end.

(** The step [.//] of a path: every descendant, the element itself left
    out. *)
Definition descendants (e : Element) : list Element :=
  flat_map iter (children e).

(** [e.findall('.//T')] *)
Definition findall_tag (t : string) (e : Element) : list Element :=
  filter (fun x => String.eqb (tag x) t) (descendants e).

Definition option_eqb (o : option string) (v : string) : bool :=
  match o with
  | Some x => String.eqb x v
  | None => false
  end.

(** [e.findall('.//T[@K="V"]')] *)
Definition findall_tag_attr (t k v : string) (e : Element) : list Element :=
  filter (fun x => option_eqb (get x k) v) (findall_tag t e).

(** The prefix [DTS:] of the namespace map, expanded. *)
Definition DTS (local : string) : string :=
  String.append "{www.microsoft.com/SqlServer/Dts}" local.

End Xml.

(* ================================================================= *)
(** ** The data classes *)

Module DataAsset.
Record t : Type := mk
  { id : string;
    name : string;
    type : string;
    schema : option string;
    database : option string;
    columns : option (list string) }.
End DataAsset.

Module DataTransformation.
Record t : Type := mk
  { id : string;
    name : string;
    type : string;
    source_assets : option (list string);
    target_assets : option (list string);
    transformation_logic : option string }.
End DataTransformation.

(* ================================================================= *)
(** ** [SSISLineageExtractor] *)

Module Extractor.
Import Text PyDict Xml.

(** The two dictionaries of an extractor instance. *)
Record state : Type := mkState
  { assets : dict DataAsset.t;
    transformations : dict DataTransformation.t }.

(** [__init__] *)
Definition init : state := mkState empty empty.

(** [f"{package_name}_{name}"] *)
Definition fmt_id (package_name name : string) : string :=
  String.append package_name (String.append "_" name).

(** [_extract_table_name]: the text of the first [property] descendant
    named [OpenRowset] or [TableOrViewName]. *)
Definition is_table_prop (prop : Element) : bool :=
  option_eqb (get prop "name") "OpenRowset"
  || option_eqb (get prop "name") "TableOrViewName".

Definition _extract_table_name (component : Element) : option string :=
  match find is_table_prop (findall_tag "property" component) with
  | Some prop => text prop
  | None => None
  end.

(** [_extract_sql_statement]: the text of the first [property] descendant
    whose name contains [SQL]. *)
Definition is_sql_prop (prop : Element) : bool :=
  contains "SQL" (get_default prop "name" "").

Definition _extract_sql_statement (task : Element) : option string :=
  match find is_sql_prop (findall_tag "property" task) with
  | Some prop => text prop
  | None => None
  end.

(** [_parse_sql_tables] *)
Definition _parse_sql_tables (sql : string) : PySet.t * PySet.t :=
  let sql_upper := upper sql in
  let source_tables := [] in
  let source_tables :=
    PySet.update source_tables (Regex.findall Regex.from_pattern sql_upper) in
  let source_tables :=
    PySet.update source_tables (Regex.findall Regex.join_pattern sql_upper) in
  let target_tables := [] in
  let target_tables :=
    PySet.update target_tables (Regex.findall Regex.insert_pattern sql_upper) in
  let target_tables :=
    PySet.update target_tables (Regex.findall Regex.update_pattern sql_upper) in
  let target_tables :=
    PySet.update target_tables (Regex.findall Regex.delete_pattern sql_upper) in
  (source_tables, target_tables).

(** The asset a data-flow component is registered as. *)
Definition component_asset (package_name default_name kind : string)
    (component : Element) : DataAsset.t :=
  let component_name := get_default component "name" default_name in
  let table_name := _extract_table_name component in
  let asset_id := fmt_id package_name component_name in
  DataAsset.mk asset_id (or_else table_name component_name) kind
               (Some "dbo") None None.

(** [self.assets[a.id] = a] *)
Definition register (a : DataAsset.t) (d : dict DataAsset.t)
    : dict DataAsset.t :=
  set (DataAsset.id a) a d.

Definition register_all (l : list DataAsset.t) (d : dict DataAsset.t)
    : dict DataAsset.t :=
  fold_left (fun acc a => register a acc) l d.

(** [[a.id for a in self.assets.values() if a.type == kind]] *)
Definition ids_of_type (kind : string) (d : dict DataAsset.t) : list string :=
  map DataAsset.id
      (filter (fun a => String.eqb (DataAsset.type a) kind) (values d)).

Definition oledb_sources (df : Element) : list Element :=
  findall_tag_attr "component" "componentClassID" "Microsoft.OLEDBSource" df.

Definition oledb_destinations (df : Element) : list Element :=
  findall_tag_attr "component" "componentClassID"
                   "Microsoft.OLEDBDestination" df.

(** The assets one data flow registers, in the order of the two loops. *)
Definition data_flow_assets (package_name : string) (df : Element)
    : list DataAsset.t :=
  map (component_asset package_name "Unknown Source" "source_table")
      (oledb_sources df)
  ++ map (component_asset package_name "Unknown Destination" "target_table")
         (oledb_destinations df).

(** The body of the loop of [_extract_data_flows]. *)
Definition data_flow_step (package_name : string) (st : state) (df : Element)
    : state :=
  let df_name := get_default df (DTS "ObjectName") "Unknown" in
  let assets1 := register_all (data_flow_assets package_name df) (assets st) in
  let trans_id := fmt_id package_name df_name in
  let tr :=
    DataTransformation.mk trans_id df_name "ssis_dataflow"
      (Some (ids_of_type "source_table" assets1))
      (Some (ids_of_type "target_table" assets1))
      None in
  mkState assets1 (set trans_id tr (transformations st)).

Definition data_flows (root : Element) : list Element :=
  findall_tag_attr (DTS "Executable") (DTS "ExecutableType")
                   "Microsoft.Pipeline" root.

Definition _extract_data_flows (st : state) (root : Element)
    (package_name : string) : state :=
  fold_left (data_flow_step package_name) (data_flows root) st.

(** The assets one SQL statement registers, sources first. *)
Definition sql_assets (package_name sql_statement : string)
    : list DataAsset.t :=
  let '(source_tables, target_tables) := _parse_sql_tables sql_statement in
  map (fun table =>
         DataAsset.mk (fmt_id package_name table) table "source_table"
                      None None None) source_tables
  ++ map (fun table =>
            DataAsset.mk (fmt_id package_name table) table "target_table"
                         None None None) target_tables.

(** The body of the loop of [_extract_sql_tasks]. *)
Definition sql_task_step (package_name : string) (st : state) (task : Element)
    : state :=
  let task_name := get_default task (DTS "ObjectName") "Unknown SQL Task" in
  let sql_statement := _extract_sql_statement task in
  match sql_statement with
  | Some (String c r) =>
      let sql := String c r in
      let assets1 := register_all (sql_assets package_name sql) (assets st) in
      let trans_id := fmt_id package_name task_name in
      let tr :=
        DataTransformation.mk trans_id task_name "sql_task" None None
                              (Some (slice_to 500 sql)) in
      mkState assets1 (set trans_id tr (transformations st))
  | _ => st
  end.

Definition sql_tasks (root : Element) : list Element :=
  findall_tag_attr (DTS "Executable") (DTS "ExecutableType")
                   "Microsoft.ExecuteSQLTask" root.

Definition _extract_sql_tasks (st : state) (root : Element)
    (package_name : string) : state :=
  fold_left (sql_task_step package_name) (sql_tasks root) st.

(** [_extract_connections] reads the connection managers and only logs what
    it finds: the state is left as it is. *)
Definition _extract_connections (st : state) (root : Element) : state := st.

(** What the file system answers for a path: whether the file exists
    ([Path.exists]), what [ET.parse] makes of it, and the stem of the path
    ([Path(dtsx_path).stem]). *)
Inductive file : Type :=
  | Missing
  | Malformed
  | Document (root : Element).

Record dtsx : Type := mkDtsx
  { dtsx_path : string;
    stem : string;
    content : file }.

Inductive exn : Type :=
  | FileNotFoundError
  | ParseError.

(** [ET.parse(dtsx_path).getroot()] *)
Definition ET_parse (p : dtsx) : exn + Element :=
  match content p with
  | Missing => inl FileNotFoundError
  | Malformed => inl ParseError
  | Document root => inr root
  end.

(** The body of the [try] of [extract_from_dtsx]: the new state, or the
    exception raised.  Only [ET.parse] raises, before anything is
    written. *)
Definition try_extract (st : state) (p : dtsx) : exn + state :=
  match ET_parse p with
  | inl e => inl e
  | inr root =>
      let package_name := stem p in
      let st := _extract_data_flows st root package_name in
      let st := _extract_sql_tasks st root package_name in
      let st := _extract_connections st root in
      inr st
  end.

(** [extract_from_dtsx]: the state after the call and the pair returned.
    The handler returns two fresh empty dictionaries. *)
Definition extract_from_dtsx (st : state) (p : dtsx)
    : state * (dict DataAsset.t * dict DataTransformation.t) :=
  match try_extract st p with
  | inr st' => (st', (assets st', transformations st'))
  | inl _ => (st, (empty, empty))
  end.

End Extractor.

(* ================================================================= *)
(** ** The graph store behind [LineageGraphBuilder] *)

Module Store.
Import PyDict.

(** The store is a property graph.  A node carries its labels and its
    properties, of which [id] and [name] are set on every node this
    program creates and are the only ones it reads back; the others are
    kept as a list, a [None] value being a property that is not set.  A
    relationship joins two nodes, named by their position in [nodes], and
    is itself named by its position in [rels]. *)
Record node : Type := mkNode
  { labels : list string;
    id : string;
    name : string;
    others : list (string * option string) }.

Record rel : Type := mkRel
  { src : nat;
    rtype : string;
    dst : nat }.

Record graph : Type := mkGraph
  { nodes : list node;
    rels : list rel }.

(** [MATCH (n) DETACH DELETE n] *)
Definition cleared : graph := mkGraph [] [].

Definition has_label (l : string) (n : node) : bool :=
  existsb (String.eqb l) (labels n).

(** Positions of the nodes that satisfy [p]: the rows of [MATCH (x ...)]. *)
Definition match_nodes (p : node -> bool) (g : graph) : list nat :=
  map fst (filter (fun ix => p (snd ix))
                  (combine (seq 0 (List.length (nodes g))) (nodes g))).

(** [CREATE (x:L {...})] *)
Definition create_node (n : node) (g : graph) : graph :=
  mkGraph (nodes g ++ [n]) (rels g).

(** [MATCH (a:LA {id: ida}) MATCH (b:LB {id: idb}) CREATE (a)-[:T]->(b)]:
    one relationship per row of the two matches. *)
Definition by_label_id (l i : string) (n : node) : bool :=
  has_label l n && String.eqb (id n) i.

Definition create_rels (la ida lb idb ty : string) (g : graph) : graph :=
  let rows :=
    flat_map (fun a => map (fun b => (a, b))
                           (match_nodes (by_label_id lb idb) g))
             (match_nodes (by_label_id la ida) g) in
  mkGraph (nodes g)
          (rels g ++ map (fun ab => mkRel (fst ab) ty (snd ab)) rows).

Definition asset_node (a : DataAsset.t) : node :=
  mkNode ["Asset"] (DataAsset.id a) (DataAsset.name a)
         [("type", Some (DataAsset.type a));
          ("schema", DataAsset.schema a);
          ("database", DataAsset.database a)].

Definition transformation_node (t : DataTransformation.t) : node :=
  mkNode ["Transformation"] (DataTransformation.id t)
         (DataTransformation.name t)
         [("type", Some (DataTransformation.type t));
          ("logic", DataTransformation.transformation_logic t)].

(** [if xs:] followed by [for x in xs:] runs over [xs] when it is a list and
    over nothing when it is [None]. *)
Definition each (xs : option (list string)) : list string :=
  match xs with
  | Some l => l
  | None => []
  end.

(** The body of the loop over the transformations. *)
Definition add_transformation (g : graph) (t : DataTransformation.t) : graph :=
  let tid := DataTransformation.id t in
  let g := create_node (transformation_node t) g in
  let g :=
    fold_left (fun g source_id =>
                 create_rels "Asset" source_id "Transformation" tid
                             "FEEDS_INTO" g)
              (each (DataTransformation.source_assets t)) g in
  fold_left (fun g target_id =>
               create_rels "Transformation" tid "Asset" target_id
                           "PRODUCES" g)
            (each (DataTransformation.target_assets t)) g.

(** [create_lineage_graph] *)
Definition create_lineage_graph (assets : dict DataAsset.t)
    (transformations : dict DataTransformation.t) : graph :=
  let g := cleared in
  let g := fold_left (fun g a => create_node (asset_node a) g)
                     (values assets) g in
  fold_left add_transformation (values transformations) g.

(** *** Variable-length patterns

    [(a)-[:T*..n]->(b)] binds a path of one to [n] relationships of type
    [T], each followed from its start to its end, none used twice in the
    path. *)

Definition numbered_rels (g : graph) : list (nat * rel) :=
  combine (seq 0 (List.length (rels g))) (rels g).

Definition mem_nat (i : nat) (l : list nat) : bool := existsb (Nat.eqb i) l.

(** The walks of at most [n] relationships that leave node [v]: each is
    the list of the relationships taken, with the node reached. *)
Fixpoint walks (g : graph) (ty : string) (n : nat) (v : nat)
    (used : list nat) : list (list nat * nat) :=
  match n with
  | O => []
  | S n' =>
      flat_map
        (fun ir =>
           let '(i, r) := ir in
           if (src r =? v) && String.eqb (rtype r) ty && negb (mem_nat i used)
           then ([i], dst r)
                  :: map (fun w => (i :: fst w, snd w))
                         (walks g ty n' (dst r) (i :: used))
           else [])
        (numbered_rels g)
  end.

(** A path: the node it starts at and the relationships it takes. *)
Definition path : Type := (nat * list nat)%type.

(** [MATCH path = (source ...)-[:T*..n]->(target ...) RETURN path] *)
Definition match_paths (g : graph) (ty : string) (n : nat)
    (is_source is_target : node -> bool) : list path :=
  flat_map
    (fun s =>
       map (fun w => (s, fst w))
           (filter (fun w => match nth_error (nodes g) (snd w) with
                             | Some t => is_target t
                             | None => false
                             end)
                   (walks g ty n s [])))
    (match_nodes is_source g).

Fixpoint rels_eqb (l m : list nat) : bool :=
  match l, m with
  | [], [] => true
  | i :: l', j :: m' => (i =? j) && rels_eqb l' m'
  | _, _ => false
  end.

Definition path_eqb (p q : path) : bool :=
  (fst p =? fst q) && rels_eqb (snd p) (snd q).

(** [UNION] keeps one copy of each row. *)
Fixpoint distinct (l : list path) : list path :=
  match l with
  | [] => []
  | p :: l' => p :: filter (fun q => negb (path_eqb p q)) (distinct l')
  end.

(** [path.nodes] *)
Definition path_nodes (g : graph) (p : path) : list node :=
  let at_ i := match nth_error (nodes g) i with
               | Some n => [n]
               | None => []
               end in
  at_ (fst p)
  ++ flat_map (fun i => match nth_error (rels g) i with
                        | Some r => at_ (dst r)
                        | None => []
                        end) (snd p).

(** One entry of [path_data]. *)
Record entry : Type := mkEntry
  { entry_id : string;
    entry_name : string;
    entry_type : list string }.

Definition is_asset (n : node) : bool := has_label "Asset" n.

Definition is_asset_named (asset_name : string) (n : node) : bool :=
  has_label "Asset" n && String.eqb (name n) asset_name.

(** The bound written in both patterns of the query. *)
Definition max_hops : nat := 10.

(** The rows of the query of [get_lineage_for_asset]. *)
Definition lineage_rows (g : graph) (asset_name : string) : list path :=
  distinct
    (match_paths g "FEEDS_INTO" max_hops is_asset (is_asset_named asset_name)
     ++ match_paths g "PRODUCES" max_hops (is_asset_named asset_name)
                    is_asset).

(** [get_lineage_for_asset]: the values under ["asset"] and
    ["lineage_paths"]. *)
Definition get_lineage_for_asset (g : graph) (asset_name : string)
    : string * list (list entry) :=
  (asset_name,
   map (fun p => map (fun n => mkEntry (id n) (name n) (labels n))
                     (path_nodes g p))
       (lineage_rows g asset_name)).

End Store.

(* ================================================================= *)
(** ** The loop of [main] *)

Module Batch.
Import PyDict Extractor.

Record acc : Type := mkAcc
  { extractor : state;
    all_assets : dict DataAsset.t;
    all_transformations : dict DataTransformation.t }.

(** [Path(package).exists()] *)
Definition exists_ (p : dtsx) : bool :=
  match content p with
  | Missing => false
  | _ => true
  end.

(** The body of the loop over [ssis_packages]. *)
Definition step (a : acc) (package : dtsx) : acc :=
  if exists_ package then
    let '(ex, (assets, transformations)) :=
      extract_from_dtsx (extractor a) package in
    mkAcc ex (update (all_assets a) assets)
          (update (all_transformations a) transformations)
  else a.

Definition start : acc := mkAcc init empty empty.

Definition run (ssis_packages : list dtsx) : acc :=
  fold_left step ssis_packages start.

End Batch.

(* ================================================================= *)
(** ** Derived views used in the statements *)

Module Views.
Import PyDict Store.

(** A relationship by the [id] properties of its two ends. *)
Definition edge : Type := (string * string * string)%type.

Definition edge_of (g : graph) (r : rel) : list edge :=
  match nth_error (nodes g) (src r), nth_error (nodes g) (dst r) with
  | Some a, Some b => [(id a, rtype r, id b)]
  | _, _ => []
  end.

(** The edges of the graph that [create_lineage_graph] builds from the two
    mappings. *)
Definition edges (assets : dict DataAsset.t)
    (transformations : dict DataTransformation.t) : list edge :=
  let g := create_lineage_graph assets transformations in
  flat_map (edge_of g) (rels g).

Definition edges_of_state (st : Extractor.state) : list edge :=
  edges (Extractor.assets st) (Extractor.transformations st).

End Views.

(* ================================================================= *)
(** ** Query texts and their clauses

    The statement about [N] source clauses and [M] target clauses is read
    over texts in which the clauses have been marked: a clause is a
    keyword phrase ([FROM], [JOIN], [INSERT INTO], [UPDATE] or
    [DELETE FROM]), each keyword followed by white space, and a table
    identifier; any other text may stand before, between and after the
    clauses.  This section follows the words of the specification, not
    the code. *)

Module Clauses.
Import Text.

Inductive clause : Type :=
  | From (table : string)
  | Join (table : string)
  | InsertInto (table : string)
  | Update (table : string)
  | DeleteFrom (table : string).

Definition table (c : clause) : string :=
  match c with
  | From t | Join t | InsertInto t | Update t | DeleteFrom t => t
  end.
















(** A table identifier: one name, or two joined by a dot, each a non-empty
    run of word characters. *)
Definition all_word (s : chars) : bool :=
  match s with
  | [] => false
  | _ :: _ => forallb is_word s
  end.

Definition is_name (s : chars) : bool :=
  let '(w, r) := Regex.span is_word s in
  match w, r with
  | _ :: _, [] => true
  | _ :: _, "."%char :: w2 => all_word w2
  | _, _ => false
  end.















End Clauses.

(* ================================================================= *)
(** ** Documents used as concrete inputs *)

Module Fixtures.
Import Xml Extractor.

Definition prop (n v : string) : Element :=
  Elem "property" [("name", n)] (Some v) [].

Definition component (class n : string) (props : list Element) : Element :=
  Elem "component" [("componentClassID", class); ("name", n)] None props.

Definition executable (ty n : string) (inside : list Element) : Element :=
  Elem (DTS "Executable")
       [(DTS "ExecutableType", ty); (DTS "ObjectName", n)] None inside.

Definition package (inside : list Element) : Element :=
  executable "Microsoft.Package" "Package" inside.

(** One data flow, [LoadCustomers], from [StgCustomer] to [DimCustomer]. *)
Definition load_customers : Element :=
  executable "Microsoft.Pipeline" "LoadCustomers"
    [component "Microsoft.OLEDBSource" "Source"
       [prop "OpenRowset" "StgCustomer"];
     component "Microsoft.OLEDBDestination" "Destination"
       [prop "OpenRowset" "DimCustomer"]].

Definition doc_load : Element := package [load_customers].

(** The same data flow with both components under one name. *)
Definition doc_same_name : Element :=
  package
    [executable "Microsoft.Pipeline" "LoadCustomers"
       [component "Microsoft.OLEDBSource" "OLE DB"
          [prop "OpenRowset" "StgCustomer"];
        component "Microsoft.OLEDBDestination" "OLE DB"
          [prop "OpenRowset" "DimCustomer"]]].

Definition sql_task (n pname sql : string) : Element :=
  executable "Microsoft.ExecuteSQLTask" n [prop pname sql].

(** A data flow followed by a query task. *)
Definition doc_flow_and_query : Element :=
  package
    [load_customers;
     sql_task "Refresh" "SQLStatement"
              "INSERT INTO DimCustomer SELECT * FROM StgCustomer"].

(** A data flow reading [CUSTOMERS], and a query task that reads it too. *)
Definition doc_overwrite : Element :=
  package
    [executable "Microsoft.Pipeline" "Load"
       [component "Microsoft.OLEDBSource" "CUSTOMERS"
          [prop "OpenRowset" "dbo.Customers"]];
     sql_task "Count" "SQLStatement" "SELECT COUNT(*) FROM Customers"].

(** The two halves of [doc_overwrite], each a document of its own. *)
Definition doc_flow_only : Element :=
  package
    [executable "Microsoft.Pipeline" "Load"
       [component "Microsoft.OLEDBSource" "CUSTOMERS"
          [prop "OpenRowset" "dbo.Customers"]]].

Definition doc_count_only : Element :=
  package [sql_task "Count" "SQLStatement" "SELECT COUNT(*) FROM Customers"].

(** A query task whose property is named [SqlStatementSource]. *)
Definition doc_lower_sql : Element :=
  package
    [sql_task "Refresh" "SqlStatementSource"
              "INSERT INTO DimCustomer SELECT * FROM StgCustomer"].

Definition doc_query : Element :=
  package
    [sql_task "Refresh" "SQLStatement"
              "INSERT INTO DimCustomer SELECT * FROM StgCustomer"].

(** A data flow from [T] to [U], then a query task that writes [T]; and
    the same without the source component. *)
Definition doc_read_then_write : Element :=
  package
    [executable "Microsoft.Pipeline" "Load"
       [component "Microsoft.OLEDBSource" "T" [prop "OpenRowset" "dbo.T"];
        component "Microsoft.OLEDBDestination" "U" [prop "OpenRowset" "U"]];
     sql_task "Fill" "SQLStatement" "INSERT INTO T SELECT 1"].

Definition doc_write_only : Element :=
  package
    [executable "Microsoft.Pipeline" "Load"
       [component "Microsoft.OLEDBDestination" "U" [prop "OpenRowset" "U"]];
     sql_task "Fill" "SQLStatement" "INSERT INTO T SELECT 1"].


Definition file_of (stem : string) (root : Element) : dtsx :=
  mkDtsx (String.append stem ".dtsx") stem (Document root).

Definition broken : dtsx := mkDtsx "broken.dtsx" "broken" Malformed.

(** A store with a cycle of two assets joined by [FEEDS_INTO]. *)
Definition cyclic : Store.graph :=
  Store.mkGraph
    [Store.mkNode ["Asset"] "a" "A" []; Store.mkNode ["Asset"] "b" "B" []]
    [Store.mkRel 0 "FEEDS_INTO" 1; Store.mkRel 1 "FEEDS_INTO" 0].

End Fixtures.

(* ================================================================= *)
(** ** One extraction as two runs of assignments *)

Module Trace.
Import Text PyDict Xml Extractor.

Definition entries (l : list DataAsset.t) : list (string * DataAsset.t) :=
  map (fun a => (DataAsset.id a, a)) l.

(** The transformation a data flow is registered as, given the assets
    present when it is built. *)
Definition flow_transformation (package_name : string) (df : Element)
    (present : dict DataAsset.t) : string * DataTransformation.t :=
  let df_name := get_default df (DTS "ObjectName") "Unknown" in
  let trans_id := fmt_id package_name df_name in
  (trans_id,
   DataTransformation.mk trans_id df_name "ssis_dataflow"
     (Some (ids_of_type "source_table" present))
     (Some (ids_of_type "target_table" present))
     None).

(** The assignments to [transformations] made for the data flows [dfs],
    starting from the assets [a]. *)
Fixpoint flow_trans (package_name : string) (dfs : list Element)
    (a : dict DataAsset.t) : list (string * DataTransformation.t) :=
  match dfs with
  | [] => []
  | df :: dfs' =>
      let a1 := register_all (data_flow_assets package_name df) a in
      flow_transformation package_name df a1
        :: flow_trans package_name dfs' a1
  end.

(** The statement a query task carries, when it is not empty. *)
Definition statement (task : Element) : option string :=
  match _extract_sql_statement task with
  | Some (String c r) => Some (String c r)
  | _ => None
  end.

Definition task_name (task : Element) : string :=
  get_default task (DTS "ObjectName") "Unknown SQL Task".

Definition task_transformation (package_name : string) (task : Element)
    (sql : string) : string * DataTransformation.t :=
  let trans_id := fmt_id package_name (task_name task) in
  (trans_id,
   DataTransformation.mk trans_id (task_name task) "sql_task" None None
                         (Some (slice_to 500 sql))).

Definition task_assets (package_name : string) (task : Element)
    : list DataAsset.t :=
  match statement task with
  | Some sql => sql_assets package_name sql
  | None => []
  end.

Definition task_trans (package_name : string) (task : Element)
    : list (string * DataTransformation.t) :=
  match statement task with
  | Some sql => [task_transformation package_name task sql]
  | None => []
  end.

(** All the assets a document registers, in order. *)
Definition doc_assets (package_name : string) (root : Element)
    : list DataAsset.t :=
  flat_map (data_flow_assets package_name) (data_flows root)
  ++ flat_map (task_assets package_name) (sql_tasks root).

(** All the transformations a document registers, in order, starting from
    the assets [a]. *)
Definition doc_trans (package_name : string) (root : Element)
    (a : dict DataAsset.t) : list (string * DataTransformation.t) :=
  flow_trans package_name (data_flows root) a
  ++ flat_map (task_trans package_name) (sql_tasks root).

(** The ids a call of [extract_from_dtsx] assigns to: in [assets], those of
    the components of the data flows and of the tables of the query
    tasks; in [transformations], those of the data flows and of the query
    tasks that carry a statement.  A file that is no document is not
    parsed, and nothing is assigned. *)
Definition asset_ids (p : dtsx) : list string :=
  match content p with
  | Document root => map DataAsset.id (doc_assets (stem p) root)
  | _ => []
  end.

Definition flow_id (package_name : string) (df : Element) : string :=
  fmt_id package_name (get_default df (DTS "ObjectName") "Unknown").

Definition task_ids (package_name : string) (task : Element) : list string :=
  match statement task with
  | Some _ => [fmt_id package_name (task_name task)]
  | None => []
  end.

Definition transformation_ids (p : dtsx) : list string :=
  match content p with
  | Document root =>
      map (flow_id (stem p)) (data_flows root)
      ++ flat_map (task_ids (stem p)) (sql_tasks root)
  | _ => []
  end.

End Trace.

(* ================================================================= *)
(** ** Vocabulary for the scan of a query text *)

Module Shape.
Import Text Regex Clauses.













(** Runs of white space, and stretches without any. *)
Definition spaces (s : chars) : Prop := Forall (fun c => is_space c = true) s.
Definition solid (s : chars) : Prop := Forall (fun c => is_space c = false) s.


(** No match that starts inside [a] ends beyond it. *)
Definition clear (p : pattern) (a s : chars) : Prop :=
  forall q u cap rest,
    a = q ++ u -> u <> [] ->
    match_here p (u ++ s) = Some (cap, rest) ->
    List.length s <= List.length rest.






End Shape.

(* ================================================================= *)
(** ** Vocabulary for the stores the program builds *)

Module StoreShape.
Import Store.

(** Every node is an asset or a transformation. *)
Definition labelled (g : graph) : Prop :=
  forall n, In n (nodes g) ->
            labels n = ["Asset"] \/ labels n = ["Transformation"].

(** A [FEEDS_INTO] relationship ends, and a [PRODUCES] relationship
    starts, at a node that is not an asset. *)
Definition rel_ok (g : graph) (r : rel) : Prop :=
  (rtype r = "FEEDS_INTO"
   /\ exists t, nth_error (nodes g) (dst r) = Some t
                /\ has_label "Asset" t = false)
  \/ (rtype r = "PRODUCES"
      /\ exists t, nth_error (nodes g) (src r) = Some t
                   /\ has_label "Asset" t = false).

Definition typed (g : graph) : Prop :=
  labelled g /\ forall r, In r (rels g) -> rel_ok g r.

End StoreShape.

(* ================================================================= *)
(** ** What [_extract_connections] logs *)

Module Connections.
Import Text Regex Xml.

Definition catalog_key : chars := kw "Initial Catalog=".

(** [[^;]] *)
Definition not_semicolon (c : ascii) : bool := negb (Ascii.eqb c ";"%char).

(** [re.search(r'Initial Catalog=([^;]+)', s)]: the group of the leftmost
    match, that is the longest run without a semicolon after the first
    occurrence of the key that is followed by such a run. *)
Fixpoint search_catalog (s : chars) : option chars :=
  match s with
  | [] => None
  | _ :: s' =>
      match lit catalog_key s with
      | Some r =>
          match span not_semicolon r with
          | ([], _) => search_catalog s'
          | (c :: db, _) => Some (c :: db)
          end
      | None => search_catalog s'
      end
  end.

Definition database_of (conn_string : string) : option string :=
  option_map string_of_list_ascii
             (search_catalog (list_ascii_of_string conn_string)).

(** The databases named in the messages that [_extract_connections] logs,
    one per connection manager whose connection string has a match, in
    document order. *)
Definition logged_databases (root : Element) : list string :=
  flat_map
    (fun conn =>
       let conn_string := get_default conn (DTS "ConnectionString") "" in
       match database_of conn_string with
       | Some database => [database]
       | None => []
       end)
    (findall_tag (DTS "ConnectionManager") root).

End Connections.

(* ================================================================= *)
(** ** The rest of [main] *)

Module Program.
Import Extractor Store.

(** [main], after the loop: the store is built from the two accumulated
    mappings and queried for [DimCustomer]; the value returned is the
    one printed. *)
Definition main (ssis_packages : list dtsx) : string * list (list entry) :=
  let a := Batch.run ssis_packages in
  let g := create_lineage_graph (Batch.all_assets a)
                                (Batch.all_transformations a) in
  get_lineage_for_asset g "DimCustomer".

End Program.

(* ================================================================= *)
(** ** Vocabulary for the states an extractor reaches *)

Module Reach.
Import Text PyDict Xml Extractor.

(** The states of an instance: the new one, and those that follow a call
    to [extract_from_dtsx]. *)
Inductive reachable : state -> Prop :=
  | reach_init : reachable init
  | reach_extract (st : state) (p : dtsx) :
      reachable st -> reachable (fst (extract_from_dtsx st p)).

(** Keys are distinct and each entity is stored under its own id. *)
Definition well_keyed {V : Type} (id_of : V -> string) (d : dict V) : Prop :=
  NoDup (keys d) /\ forall k v, In (k, v) d -> id_of v = k.

(** Every id a transformation lists is the id of a registered asset. *)
Definition referenced (st : state) : Prop :=
  forall k t x,
    In (k, t) (transformations st) ->
    In x (Store.each (DataTransformation.source_assets t))
    \/ In x (Store.each (DataTransformation.target_assets t)) ->
    In x (keys (assets st)).

(** No transformation lists an id both as a source and as a target. *)
Definition separated (st : state) : Prop :=
  forall k t x,
    In (k, t) (transformations st) ->
    In x (Store.each (DataTransformation.source_assets t)) ->
    In x (Store.each (DataTransformation.target_assets t)) -> False.

(** The logic kept with a transformation has at most 500 characters. *)
Definition excerpts_bounded (st : state) : Prop :=
  forall k t l,
    In (k, t) (transformations st) ->
    DataTransformation.transformation_logic t = Some l ->
    String.length l <= 500.

Definition consistent (st : state) : Prop :=
  well_keyed DataAsset.id (assets st)
  /\ well_keyed DataTransformation.id (transformations st)
  /\ referenced st /\ separated st /\ excerpts_bounded st.

End Reach.

(* ================================================================= *)
(** ** Vocabulary for the relationships of a store *)

Module Edges.
Import PyDict Store.

(** The edges of a store, by the ids of their ends. *)
Definition graph_edges (g : graph) : list Views.edge :=
  flat_map (Views.edge_of g) (rels g).

(** Both ends of every relationship are nodes of the store. *)
Definition closed (g : graph) : Prop :=
  forall r, In r (rels g) ->
            src r < List.length (nodes g) /\ dst r < List.length (nodes g).

(** A relationship is a [FEEDS_INTO] from an asset to a transformation or
    a [PRODUCES] from a transformation to an asset. *)
Definition directed (g : graph) (r : rel) : Prop :=
  exists a t,
    has_label "Asset" a = true /\ has_label "Transformation" t = true
    /\ ((rtype r = "FEEDS_INTO"
         /\ nth_error (nodes g) (src r) = Some a
         /\ nth_error (nodes g) (dst r) = Some t)
        \/ (rtype r = "PRODUCES"
            /\ nth_error (nodes g) (src r) = Some t
            /\ nth_error (nodes g) (dst r) = Some a)).

(** One entry of [path_data], from a node. *)
Definition entry_of (n : node) : entry := mkEntry (id n) (name n) (labels n).

Definition registered (ids : list string) (x : string) : bool :=
  existsb (String.eqb x) ids.

(** The edges one transformation gives rise to when the assets with the
    ids [ids] are in the store: one per listed id that is registered. *)
Definition edges_for (ids : list string) (t : DataTransformation.t)
    : list Views.edge :=
  map (fun s => (s, "FEEDS_INTO", DataTransformation.id t))
      (filter (registered ids) (each (DataTransformation.source_assets t)))
  ++ map (fun x => (DataTransformation.id t, "PRODUCES", x))
         (filter (registered ids) (each (DataTransformation.target_assets t))).

(** The edges one transformation asks for, whether registered or not. *)
Definition listed_edges (t : DataTransformation.t) : list Views.edge :=
  map (fun s => (s, "FEEDS_INTO", DataTransformation.id t))
      (each (DataTransformation.source_assets t))
  ++ map (fun x => (DataTransformation.id t, "PRODUCES", x))
         (each (DataTransformation.target_assets t)).

End Edges.

(* ================================================================= *)
(** ** Vocabulary for texts of several statements *)

Module Statements.
Import Text Regex.

(** Two statements with a semicolon between them. *)
Definition sequence (s1 s2 : string) : string :=
  String.append s1 (String.append ";" s2).

(** No keyword of the pattern holds a semicolon. *)
Definition semicolon_free (p : pattern) : bool :=
  forallb (forallb (fun c => negb (Ascii.eqb c ";"%char))) p.

(** What is left of a text after a match, when more text follows. *)
Definition followed_by (b : chars) (m : option (chars * chars))
    : option (chars * chars) :=
  match m with
  | Some (cap, rest) => Some (cap, rest ++ ";"%char :: b)
  | None => None
  end.

End Statements.

(* ================================================================= *)
(** * Properties *)

(* ================================================================= *)
(** ** Dictionaries: assignment and its laws *)

Module PyDictFacts.
Import PyDict.

Section Laws.
Context {V : Type}.
Implicit Types (d : dict V) (k : string) (v : V).

Lemma get_set_same k v d : get k (set k v d) = Some v.
Proof.
  induction d as [|[k' v'] d IH]; simpl.
  - now rewrite String.eqb_refl.
  - destruct (String.eqb k k') eqn:E; simpl; rewrite E; auto.
Qed.

Lemma get_set_other k k' v d : k <> k' -> get k' (set k v d) = get k' d.
Proof.
  intros Hne. induction d as [|[k1 v1] d IH]; simpl.
  - destruct (String.eqb k' k) eqn:E; auto.
    apply String.eqb_eq in E. congruence.
  - destruct (String.eqb k k1) eqn:E; simpl.
    + apply String.eqb_eq in E. subst k1.
      destruct (String.eqb k' k) eqn:E'; auto.
      apply String.eqb_eq in E'. congruence.
    + now rewrite IH.
Qed.

(** Assigning never removes or moves a key: the keys after are the keys
    before, followed by the key assigned when it is new. *)
Lemma keys_set k v d :
  keys (set k v d)
  = keys d ++ match get k d with Some _ => [] | None => [k] end.
Proof.
  unfold keys. induction d as [|[k' v'] d IH]; simpl; auto.
  destruct (String.eqb k k') eqn:E; simpl.
  - now rewrite app_nil_r.
  - now rewrite IH.
Qed.

Lemma get_in_keys k d : get k d <> None <-> In k (keys d).
Proof.
  induction d as [|[k' v'] d IH]; simpl.
  - tauto.
  - destruct (String.eqb k k') eqn:E.
    + apply String.eqb_eq in E. subst. split; auto. discriminate.
    + apply String.eqb_neq in E. rewrite IH. split; auto.
      intros [H|H]; congruence.
Qed.

Lemma set_set_same k v v' d : set k v' (set k v d) = set k v' d.
Proof.
  induction d as [|[k1 v1] d IH]; simpl.
  - now rewrite String.eqb_refl.
  - destruct (String.eqb k k1) eqn:E; simpl; rewrite E; auto.
    now rewrite IH.
Qed.

Lemma set_get_same k v d : get k d = Some v -> set k v d = d.
Proof.
  induction d as [|[k1 v1] d IH]; simpl; try discriminate.
  destruct (String.eqb k k1) eqn:E.
  - intros [= ->]. reflexivity.
  - intros H. now rewrite IH.
Qed.

(** Two assignments to different keys commute when the first key is
    already there. *)
Lemma set_comm k k' v v' d :
  k <> k' -> get k d <> None ->
  set k' v' (set k v d) = set k v (set k' v' d).
Proof.
  intros Hne. induction d as [|[k1 v1] d IH]; simpl; try congruence.
  destruct (String.eqb k k1) eqn:E; destruct (String.eqb k' k1) eqn:E';
    simpl; rewrite ?E, ?E'; auto.
  - apply String.eqb_eq in E, E'. congruence.
  - intros H. now rewrite IH.
Qed.

Lemma update_empty d : update d empty = d.
Proof. reflexivity. Qed.

End Laws.

Section Runs.
Context {V : Type}.
Implicit Types (d : dict V) (w : list (string * V)).

Lemma set_all_app w1 w2 d : set_all (w1 ++ w2) d = set_all w2 (set_all w1 d).
Proof. apply fold_left_app. Qed.

Lemma keys_set_all w d : exists new, keys (set_all w d) = keys d ++ new.
Proof.
  revert d. induction w as [|[k v] w IH]; intros d; simpl.
  - exists []. now rewrite app_nil_r.
  - destruct (IH (set k v d)) as [new Hnew].
    rewrite Hnew, keys_set, <- app_assoc. eauto.
Qed.

Lemma get_set_all_keeps k w d :
  get k d <> None -> get k (set_all w d) <> None.
Proof.
  intros H. apply get_in_keys. apply get_in_keys in H.
  destruct (keys_set_all w d) as [new ->]. apply in_or_app. auto.
Qed.

(** A key that is present and is assigned later in the run need not be
    assigned first. *)
Lemma set_all_absorbs k v w d :
  get k d <> None -> In k (map fst w) ->
  set_all w (set k v d) = set_all w d.
Proof.
  revert d. induction w as [|[k1 v1] w IH]; intros d Hk Hin; simpl in *.
  - contradiction.
  - destruct (String.eqb k k1) eqn:E.
    + apply String.eqb_eq in E. subst k1. now rewrite set_set_same.
    + apply String.eqb_neq in E. destruct Hin as [?|Hin]; [congruence|].
      rewrite set_comm by auto. apply IH; auto.
      rewrite get_set_other by congruence. exact Hk.
Qed.

Lemma get_set_all_other k w d :
  ~ In k (map fst w) -> get k (set_all w d) = get k d.
Proof.
  revert d. induction w as [|[k1 v1] w IH]; intros d Hin; simpl in *; auto.
  rewrite IH by tauto. apply get_set_other. intros ->. tauto.
Qed.

(** Running the same assignments a second time changes nothing. *)
Lemma set_all_twice w d : set_all w (set_all w d) = set_all w d.
Proof.
  revert d. induction w as [|[k v] w IH]; intros d; simpl; auto.
  set (e := set k v d).
  assert (He : get k e <> None) by (unfold e; rewrite get_set_same; discriminate).
  destruct (in_dec string_dec k (map fst w)) as [Hin|Hout].
  - rewrite set_all_absorbs; auto. now apply get_set_all_keeps.
  - rewrite (set_get_same k v (set_all w e)); auto.
    rewrite get_set_all_other by exact Hout.
    unfold e. apply get_set_same.
Qed.

End Runs.

(** The keys after a run depend on the keys before and the keys of the run
    only. *)
Lemma keys_set_all_values {V W : Type} (w : list (string * V))
    (w' : list (string * W)) (d : dict V) (d' : dict W) :
  map fst w = map fst w' -> keys d = keys d' ->
  keys (set_all w d) = keys (set_all w' d').
Proof.
  revert w' d d'. induction w as [|[k v] w IH]; intros [|[k' v'] w'] d d' Hw Hd;
    simpl in *; try discriminate; auto.
  injection Hw as -> Hw. apply IH; auto.
  rewrite !keys_set, Hd.
  destruct (get k' d) eqn:E1, (get k' d') eqn:E2; auto; exfalso.
  - assert (H : get k' d <> None) by congruence.
    apply get_in_keys in H. rewrite Hd in H. apply get_in_keys in H. auto.
  - assert (H : get k' d' <> None) by congruence.
    apply get_in_keys in H. rewrite <- Hd in H. apply get_in_keys in H. auto.
Qed.

End PyDictFacts.

(* ================================================================= *)
(** ** More on dictionaries *)

Module PyDictMore.
Import PyDict PyDictFacts.

Section Entries.
Context {V : Type}.
Implicit Types (d : dict V) (w : list (string * V)) (k : string) (v : V).

Lemma in_set k v d k' v' :
  In (k', v') (set k v d) -> (k', v') = (k, v) \/ In (k', v') d.
Proof.
  induction d as [|[k1 v1] d IH]; simpl.
  - intros [H|[]]. now left.
  - destruct (String.eqb k k1) eqn:E; simpl.
    + apply String.eqb_eq in E. subst k1. intros [H|H]; auto.
    + intros [H|H]; auto. destruct (IH H); auto.
Qed.

Lemma in_set_all w : forall d k v,
  In (k, v) (set_all w d) -> In (k, v) w \/ In (k, v) d.
Proof.
  induction w as [|[k1 v1] w IH]; intros d k v H; simpl in *; auto.
  apply IH in H. destruct H as [H|H]; auto.
  apply in_set in H. destruct H as [H|H]; auto.
Qed.

Lemma NoDup_keys_set k v d : NoDup (keys d) -> NoDup (keys (set k v d)).
Proof.
  intros H. rewrite keys_set. destruct (get k d) eqn:E.
  - now rewrite app_nil_r.
  - apply NoDup_app; auto.
    + repeat constructor. simpl. tauto.
    + intros x Hx [<-|[]]. apply get_in_keys in Hx. congruence.
Qed.

Lemma NoDup_keys_set_all w : forall d,
  NoDup (keys d) -> NoDup (keys (set_all w d)).
Proof.
  induction w as [|[k v] w IH]; intros d H; simpl; auto.
  apply IH. now apply NoDup_keys_set.
Qed.

Lemma keys_kept w d k : In k (keys d) -> In k (keys (set_all w d)).
Proof.
  intros H. destruct (keys_set_all w d) as [new ->]. apply in_or_app. auto.
Qed.

Lemma keys_written w : forall d k,
  In k (map fst w) -> In k (keys (set_all w d)).
Proof.
  induction w as [|[k1 v1] w IH]; intros d k H; simpl in *; [contradiction|].
  destruct H as [<-|H]; auto.
  apply keys_kept. apply get_in_keys. rewrite get_set_same. discriminate.
Qed.

Lemma keys_set_all_inv w : forall d k,
  In k (keys (set_all w d)) -> In k (keys d) \/ In k (map fst w).
Proof.
  induction w as [|[k1 v1] w IH]; intros d k H; simpl in *; auto.
  apply IH in H. destruct H as [H|H]; auto.
  rewrite keys_set in H. apply in_app_or in H. destruct H as [H|H]; auto.
  destruct (get k1 d); simpl in H; [contradiction|].
  destruct H as [<-|[]]. auto.
Qed.

(** Under distinct keys a key has one value. *)
Lemma NoDup_keys_functional d k v v' :
  NoDup (keys d) -> In (k, v) d -> In (k, v') d -> v = v'.
Proof.
  induction d as [|[k1 v1] d IH]; simpl; [tauto|].
  intros Hnd. inversion Hnd as [|? ? Hnot Hnd']; subst.
  assert (Hk : forall u, In (k1, u) d -> False).
  { intros u Hu. apply Hnot. apply (in_map fst) in Hu. exact Hu. }
  intros [H1|H1] [H2|H2]; auto.
  - congruence.
  - injection H1 as -> ->. exfalso. eauto.
  - injection H2 as -> ->. exfalso. eauto.
Qed.

Lemma set_fresh k v d : ~ In k (keys d) -> set k v d = d ++ [(k, v)].
Proof.
  induction d as [|[k1 v1] d IH]; simpl; auto.
  intros H. destruct (String.eqb k k1) eqn:E.
  - apply String.eqb_eq in E. subst. tauto.
  - rewrite IH; auto.
Qed.

Lemma set_all_fresh w : forall d,
  NoDup (keys (d ++ w)) -> set_all w d = d ++ w.
Proof.
  induction w as [|[k v] w IH]; intros d H; simpl.
  - now rewrite app_nil_r.
  - assert (Hk : ~ In k (keys d)).
    { unfold keys in H. rewrite map_app in H. simpl in H.
      apply NoDup_remove_2 in H. intros Hin. apply H.
      apply in_or_app. now left. }
    rewrite set_fresh by exact Hk.
    rewrite IH; rewrite <- app_assoc; auto.
Qed.

Lemma set_all_under k v w : forall d,
  ~ In k (map fst w) -> set_all w ((k, v) :: d) = (k, v) :: set_all w d.
Proof.
  induction w as [|[k1 v1] w IH]; intros d H; simpl in *; auto.
  destruct (String.eqb k1 k) eqn:E.
  - apply String.eqb_eq in E. subst. tauto.
  - apply IH. tauto.
Qed.

(** What an assignment leaves under any key. *)
Lemma get_set k k' v d :
  get k' (set k v d) = if String.eqb k' k then Some v else get k' d.
Proof.
  destruct (String.eqb k' k) eqn:E.
  - apply String.eqb_eq in E. subst. apply get_set_same.
  - apply String.eqb_neq in E. apply get_set_other. congruence.
Qed.

(** What a run of assignments leaves under a key depends on what was
    under that key only. *)
Lemma get_set_all_congr k w : forall d d',
  get k d = get k d' -> get k (set_all w d) = get k (set_all w d').
Proof.
  induction w as [|[k1 v1] w IH]; intros d d' H; simpl; auto.
  apply IH. rewrite !get_set. now rewrite H.
Qed.

(** An assignment to a key that is present, overwritten at the end of a
    run, need not be made. *)
Lemma set_all_overwritten k v v' w : forall d,
  get k d <> None ->
  set k v' (set_all w (set k v d)) = set k v' (set_all w d).
Proof.
  induction w as [|[k1 v1] w IH]; intros d H; simpl.
  - apply set_set_same.
  - destruct (string_dec k k1) as [<-|Hne].
    + now rewrite set_set_same.
    + rewrite set_comm by auto. apply IH.
      rewrite get_set_other by congruence. exact H.
Qed.

(** Updating a dictionary with one that extends it gives the extension. *)
Lemma update_with_extension d : forall w new,
  NoDup (keys w) -> keys w = keys d ++ new -> update d w = w.
Proof.
  change (@update V) with (fun d w => @set_all V w d). cbv beta.
  induction d as [|[k v0] d IH]; intros w new Hnd Hk.
  - apply (set_all_fresh w []). exact Hnd.
  - destruct w as [|[k' v] w]; [discriminate|].
    simpl in Hk. injection Hk as -> Hk.
    simpl in Hnd. inversion Hnd as [|? ? Hnot Hnd']; subst.
    simpl. rewrite String.eqb_refl.
    rewrite set_all_under by exact Hnot.
    f_equal. eapply IH; eauto.
Qed.

End Entries.

End PyDictMore.

(* ================================================================= *)
(** ** The state after an extraction *)

Module ExtractorFacts.
Import Text PyDict Xml Extractor Trace PyDictFacts.

Lemma register_all_set_all l d : register_all l d = set_all (entries l) d.
Proof.
  revert d. induction l as [|a l IH]; intros d; simpl; auto.
Qed.

Lemma register_all_app l1 l2 d :
  register_all (l1 ++ l2) d = register_all l2 (register_all l1 d).
Proof. apply fold_left_app. Qed.

Lemma data_flows_fold package_name dfs st :
  fold_left (data_flow_step package_name) dfs st
  = mkState
      (register_all (flat_map (data_flow_assets package_name) dfs) (assets st))
      (set_all (flow_trans package_name dfs (assets st)) (transformations st)).
Proof.
  revert st. induction dfs as [|df dfs IH]; intros st; simpl.
  - now destruct st.
  - rewrite IH. simpl. now rewrite register_all_app.
Qed.

Lemma sql_task_step_eq package_name st task :
  sql_task_step package_name st task
  = mkState (register_all (task_assets package_name task) (assets st))
            (set_all (task_trans package_name task) (transformations st)).
Proof.
  unfold sql_task_step, task_assets, task_trans, statement.
  destruct (_extract_sql_statement task) as [[|c r]|]; simpl;
    now destruct st.
Qed.

Lemma sql_tasks_fold package_name tasks st :
  fold_left (sql_task_step package_name) tasks st
  = mkState
      (register_all (flat_map (task_assets package_name) tasks) (assets st))
      (set_all (flat_map (task_trans package_name) tasks) (transformations st)).
Proof.
  revert st. induction tasks as [|task tasks IH]; intros st; simpl.
  - now destruct st.
  - rewrite IH, sql_task_step_eq. simpl.
    now rewrite register_all_app, set_all_app.
Qed.

(** The state after a document has been extracted. *)
Lemma try_extract_document st path package_name root :
  try_extract st (mkDtsx path package_name (Document root))
  = inr (mkState
           (register_all (doc_assets package_name root) (assets st))
           (set_all (doc_trans package_name root (assets st))
                    (transformations st))).
Proof.
  unfold try_extract, ET_parse, _extract_connections, _extract_sql_tasks,
    _extract_data_flows, doc_assets, doc_trans. simpl.
  rewrite sql_tasks_fold, data_flows_fold. simpl.
  now rewrite register_all_app, set_all_app.
Qed.

Lemma try_extract_not_document st p :
  (forall root, content p <> Document root) ->
  exists e, try_extract st p = inl e.
Proof.
  intros H. unfold try_extract, ET_parse.
  destruct (content p); eauto. now destruct (H root).
Qed.

(** The keys assigned for the transformations of a document do not depend
    on the assets present. *)
Lemma flow_trans_keys package_name dfs a a' :
  map fst (flow_trans package_name dfs a)
  = map fst (flow_trans package_name dfs a').
Proof.
  revert a a'. induction dfs as [|df dfs IH]; intros a a'; simpl; auto.
  f_equal. apply IH.
Qed.

Lemma doc_trans_keys package_name root a a' :
  map fst (doc_trans package_name root a)
  = map fst (doc_trans package_name root a').
Proof.
  unfold doc_trans. rewrite !map_app. f_equal. apply flow_trans_keys.
Qed.

Lemma flow_trans_ids package_name dfs a :
  map fst (flow_trans package_name dfs a) = map (flow_id package_name) dfs.
Proof.
  revert a. induction dfs as [|df dfs IH]; intros a; simpl; auto.
  f_equal. apply IH.
Qed.

Lemma task_trans_ids package_name tasks :
  map fst (flat_map (task_trans package_name) tasks)
  = flat_map (task_ids package_name) tasks.
Proof.
  induction tasks as [|task tasks IH]; simpl; auto.
  rewrite map_app, IH. f_equal.
  unfold task_trans, task_ids. now destruct (statement task).
Qed.

Lemma doc_trans_written package_name root a :
  map fst (doc_trans package_name root a)
  = map (flow_id package_name) (data_flows root)
    ++ flat_map (task_ids package_name) (sql_tasks root).
Proof.
  unfold doc_trans. rewrite map_app, flow_trans_ids, task_trans_ids.
  reflexivity.
Qed.

Lemma entries_written l : map fst (entries l) = map DataAsset.id l.
Proof. unfold entries. rewrite map_map. reflexivity. Qed.

End ExtractorFacts.

(* ================================================================= *)
(** ** Statements about the extractor state *)

Module ExtractorClaims.
Import Text PyDict Xml Extractor Trace Fixtures.
Import PyDictFacts PyDictMore ExtractorFacts.

Lemma fmt_id_inj package_name n1 n2 :
  fmt_id package_name n1 = fmt_id package_name n2 -> n1 = n2.
Proof.
  unfold fmt_id. induction package_name as [|c s IH]; simpl.
  - now intros [= ->].
  - intros [= H]. auto.
Qed.

(** C1, as amended.  A candidate registered under an id that an earlier
    candidate has taken replaces the earlier one whole, whatever is
    registered in between: the entity under the id is the later candidate
    with all its fields (absent ones included), and under every id the
    registry holds what it would hold had the earlier candidate never
    been registered.  The later registration leaves the entities under
    the other ids as they were, adds no id and moves none: the id stays
    where the earlier registration put or left it, and ids that were
    distinct stay distinct.  The registry equals the one without the
    earlier candidate, order included, when the id was registered before
    the earlier candidate or nothing is registered in between. *)
Theorem later_candidate_replaces_earlier
    (a b : DataAsset.t) (between : list DataAsset.t) (d : dict DataAsset.t) :
  DataAsset.id a = DataAsset.id b ->
  let before := register_all between (register a d) in
  let after := register b before in
  let without := register b (register_all between d) in
  PyDict.get (DataAsset.id b) after = Some b
  /\ (forall k, PyDict.get k after = PyDict.get k without)
  /\ (forall k, k <> DataAsset.id b ->
        PyDict.get k after = PyDict.get k before)
  /\ keys after = keys before
  /\ (exists new, keys after = keys (register a d) ++ new)
  /\ (NoDup (keys d) -> NoDup (keys after))
  /\ (PyDict.get (DataAsset.id a) d <> None \/ between = [] ->
      after = without).
Proof.
  intros Hid before after without. subst before after without.
  rewrite !register_all_set_all. unfold register. rewrite Hid.
  set (k0 := DataAsset.id b). set (w := entries between).
  assert (Hin : PyDict.get k0 (set_all w (set k0 a d)) <> None).
  { apply get_set_all_keeps. rewrite get_set_same. discriminate. }
  assert (Hkeys : keys (set k0 b (set_all w (set k0 a d)))
                  = keys (set_all w (set k0 a d))).
  { rewrite keys_set.
    destruct (PyDict.get k0 (set_all w (set k0 a d))); [|congruence].
    apply app_nil_r. }
  repeat split.
  - apply get_set_same.
  - intros k. rewrite !get_set. destruct (String.eqb k k0) eqn:E; auto.
    apply get_set_all_congr. rewrite get_set, E. reflexivity.
  - intros k Hk. apply get_set_other. congruence.
  - exact Hkeys.
  - rewrite Hkeys. apply keys_set_all.
  - intros Hnd. rewrite Hkeys.
    now apply NoDup_keys_set_all, NoDup_keys_set.
  - intros [Hthere| ->].
    + now apply set_all_overwritten.
    + apply set_set_same.
Qed.

Lemma later_candidate_replaces_earlier_witness :
  let a := DataAsset.mk "pkg_T" "dbo.T" "source_table" (Some "dbo") None None in
  let u := DataAsset.mk "pkg_U" "U" "target_table" (Some "dbo") None None in
  let b := DataAsset.mk "pkg_T" "T" "target_table" None None None in
  PyDict.get "pkg_T" (register b (register_all [u] (register a empty)))
  = Some b
  /\ keys (register b (register_all [u] (register a empty)))
     = keys (register_all [u] (register a empty)).
Proof.
  intros a u b.
  pose proof (later_candidate_replaces_earlier a b [u] empty eq_refl) as H.
  cbv zeta in H.
  exact (conj (proj1 H) (proj1 (proj2 (proj2 (proj2 H))))).
Defined.

(** The order of the ids follows the first registration.  In
    [doc_read_then_write] the data flow registers [pkg_T] and [pkg_U] and
    the query task registers [pkg_T] again: [pkg_T] stays first.  Without
    the source component the query task is the first to register
    [pkg_T], after [pkg_U]. *)
Lemma place_of_first_registration :
  let with_earlier :=
    fst (extract_from_dtsx init (file_of "pkg" doc_read_then_write)) in
  let without_earlier :=
    fst (extract_from_dtsx init (file_of "pkg" doc_write_only)) in
  keys (assets with_earlier) = ["pkg_T"; "pkg_U"]
  /\ keys (assets without_earlier) = ["pkg_U"; "pkg_T"]
  /\ PyDict.get "pkg_T" (assets with_earlier)
     = PyDict.get "pkg_T" (assets without_earlier).
Proof. vm_compute. auto. Qed.

(** C1, counterexample.  In [doc_overwrite] the data flow registers
    [pkg_CUSTOMERS] with schema [dbo]; the query task then registers the
    same id with no schema, and the schema is gone. *)
Lemma schema_lost_on_second_registration :
  let after_flows := _extract_data_flows init doc_overwrite "pkg" in
  let after_tasks := _extract_sql_tasks after_flows doc_overwrite "pkg" in
  PyDict.get "pkg_CUSTOMERS" (assets after_flows)
  = Some (DataAsset.mk "pkg_CUSTOMERS" "dbo.Customers" "source_table"
                       (Some "dbo") None None)
  /\ PyDict.get "pkg_CUSTOMERS" (assets after_tasks)
     = Some (DataAsset.mk "pkg_CUSTOMERS" "CUSTOMERS" "source_table"
                          None None None)
  /\ keys (assets after_tasks) = ["pkg_CUSTOMERS"].
Proof. vm_compute. auto. Qed.

(** C6, as amended.  On a new extractor, a document whose only task is a
    data flow named [LoadCustomers] with one source component and one
    destination component of different names yields two assets, of kind
    [source_table] and [target_table], and one transformation whose
    source and target lists hold the id of the one and of the other. *)
Theorem single_data_flow
    (path package_name : string) (root df s d : Element) :
  data_flows root = [df] ->
  sql_tasks root = [] ->
  oledb_sources df = [s] ->
  oledb_destinations df = [d] ->
  get_default df (DTS "ObjectName") "Unknown" = "LoadCustomers" ->
  get_default s "name" "Unknown Source"
    <> get_default d "name" "Unknown Destination" ->
  let a_s := component_asset package_name "Unknown Source" "source_table" s in
  let a_d :=
    component_asset package_name "Unknown Destination" "target_table" d in
  let tid := fmt_id package_name "LoadCustomers" in
  snd (extract_from_dtsx init (mkDtsx path package_name (Document root)))
  = ([(DataAsset.id a_s, a_s); (DataAsset.id a_d, a_d)],
     [(tid, DataTransformation.mk tid "LoadCustomers" "ssis_dataflow"
              (Some [DataAsset.id a_s]) (Some [DataAsset.id a_d]) None)])
  /\ DataAsset.id a_s <> DataAsset.id a_d
  /\ DataAsset.type a_s = "source_table"
  /\ DataAsset.type a_d = "target_table".
Proof.
  intros Hdf Hsql Hs Hd Hname Hne a_s a_d tid.
  assert (Hid : DataAsset.id a_s <> DataAsset.id a_d).
  { simpl. intros H. now apply fmt_id_inj in H. }
  repeat split; auto.
  unfold extract_from_dtsx. rewrite try_extract_document.
  unfold doc_assets, doc_trans. rewrite Hdf, Hsql. simpl.
  unfold flow_transformation, data_flow_assets. rewrite Hs, Hd, Hname.
  simpl. fold a_s a_d tid.
  apply String.eqb_neq in Hid. rewrite String.eqb_sym in Hid.
  assert (Hreg : register a_d (register a_s empty)
                 = [(DataAsset.id a_s, a_s); (DataAsset.id a_d, a_d)]).
  { unfold register at 2. simpl. unfold register. simpl. simpl in Hid.
    now rewrite Hid. }
  rewrite Hreg. reflexivity.
Qed.

Lemma single_data_flow_witness :
  snd (extract_from_dtsx init (file_of "pkg" doc_load))
  = ([("pkg_Source",
       DataAsset.mk "pkg_Source" "StgCustomer" "source_table"
                    (Some "dbo") None None);
      ("pkg_Destination",
       DataAsset.mk "pkg_Destination" "DimCustomer" "target_table"
                    (Some "dbo") None None)],
     [("pkg_LoadCustomers",
       DataTransformation.mk "pkg_LoadCustomers" "LoadCustomers"
         "ssis_dataflow" (Some ["pkg_Source"]) (Some ["pkg_Destination"])
         None)]).
Proof.
  refine (proj1 (single_data_flow "pkg.dtsx" "pkg" doc_load load_customers
           (component "Microsoft.OLEDBSource" "Source"
                      [prop "OpenRowset" "StgCustomer"])
           (component "Microsoft.OLEDBDestination" "Destination"
                      [prop "OpenRowset" "DimCustomer"])
           _ _ _ _ _ _)); try reflexivity.
  vm_compute. discriminate.
Defined.

(** C6, counterexample.  When the source and the destination component
    carry the same name they share one id: one asset is left, of kind
    [target_table], and the transformation has no source. *)
Lemma single_data_flow_same_component_name :
  snd (extract_from_dtsx init (file_of "pkg" doc_same_name))
  = ([("pkg_OLE DB",
       DataAsset.mk "pkg_OLE DB" "DimCustomer" "target_table"
                    (Some "dbo") None None)],
     [("pkg_LoadCustomers",
       DataTransformation.mk "pkg_LoadCustomers" "LoadCustomers"
         "ssis_dataflow" (Some []) (Some ["pkg_OLE DB"]) None)]).
Proof. reflexivity. Qed.


Lemma extract_document st path package_name root :
  extract_from_dtsx st (mkDtsx path package_name (Document root))
  = let st' :=
      mkState (register_all (doc_assets package_name root) (assets st))
              (set_all (doc_trans package_name root (assets st))
                       (transformations st)) in
    (st', (assets st', transformations st')).
Proof.
  unfold extract_from_dtsx. now rewrite try_extract_document.
Qed.

Lemma extract_no_document st p :
  (forall root, content p <> Document root) ->
  extract_from_dtsx st p = (st, (empty, empty)).
Proof.
  intros H. unfold extract_from_dtsx.
  destruct (try_extract_not_document st p H) as [e ->]. reflexivity.
Qed.

(** C7.  A document that is not well formed makes [ET.parse] raise
    [ParseError]; the handler of [extract_from_dtsx] turns it into a pair
    of empty mappings and leaves the extractor as it was, and the batch
    ends in the state it would have reached without that document. *)
Theorem malformed_document_is_skipped
    (p : dtsx) (before after : list dtsx) :
  content p = Malformed ->
  (forall st, try_extract st p = inl ParseError
              /\ extract_from_dtsx st p = (st, (empty, empty)))
  /\ Batch.run (before ++ p :: after) = Batch.run (before ++ after).
Proof.
  intros Hbad.
  assert (Hex : forall st, try_extract st p = inl ParseError
                           /\ extract_from_dtsx st p = (st, (empty, empty))).
  { intros st. unfold extract_from_dtsx, try_extract, ET_parse.
    now rewrite Hbad. }
  split; [exact Hex|].
  unfold Batch.run. rewrite !fold_left_app. simpl. f_equal.
  set (a := fold_left Batch.step before Batch.start).
  unfold Batch.step, Batch.exists_. rewrite Hbad.
  destruct (Hex (Batch.extractor a)) as [_ ->].
  rewrite !update_empty. now destruct a.
Qed.

Lemma malformed_document_is_skipped_witness :
  Batch.run ([file_of "pkg" doc_load] ++ broken
               :: [file_of "etl" doc_flow_and_query])
  = Batch.run ([file_of "pkg" doc_load] ++ [file_of "etl" doc_flow_and_query]).
Proof.
  exact (proj2 (malformed_document_is_skipped broken
                  [file_of "pkg" doc_load]
                  [file_of "etl" doc_flow_and_query] eq_refl)).
Defined.

(** C9, as amended.  A call to [extract_from_dtsx] removes no id and moves
    none: the keys of both mappings after the call are the keys before
    it, followed by the new ones.  The entity under an id is the one that
    was there before the call, unless the file of the call registers a
    candidate under that id.  When the file is a document the pair
    returned is the pair of accumulated mappings of the instance;
    otherwise it is a pair of empty mappings and the instance is
    untouched. *)
Theorem ids_only_grow (st : state) (p : dtsx) :
  let st' := fst (extract_from_dtsx st p) in
  (exists new, keys (assets st') = keys (assets st) ++ new)
  /\ (exists new,
        keys (transformations st') = keys (transformations st) ++ new)
  /\ (forall k, ~ In k (asset_ids p) ->
        PyDict.get k (assets st') = PyDict.get k (assets st))
  /\ (forall k, ~ In k (transformation_ids p) ->
        PyDict.get k (transformations st')
        = PyDict.get k (transformations st))
  /\ match content p with
     | Document _ =>
         snd (extract_from_dtsx st p) = (assets st', transformations st')
     | _ => snd (extract_from_dtsx st p) = (empty, empty) /\ st' = st
     end.
Proof.
  destruct p as [path package_name [| |root]]; cbv zeta; cbn [content];
    try (rewrite extract_no_document by (simpl; discriminate); simpl;
         repeat split; exists []; now rewrite app_nil_r).
  rewrite extract_document.
  unfold asset_ids, transformation_ids. simpl. repeat split.
  - rewrite register_all_set_all. apply keys_set_all.
  - apply keys_set_all.
  - intros k Hk. rewrite register_all_set_all.
    apply get_set_all_other. now rewrite entries_written.
  - intros k Hk. apply get_set_all_other. now rewrite doc_trans_written.
Qed.

Lemma ids_only_grow_witness :
  let st := fst (extract_from_dtsx init (file_of "pkg" doc_flow_only)) in
  let st' := fst (extract_from_dtsx st (file_of "etl" doc_count_only)) in
  asset_ids (file_of "etl" doc_count_only) = ["etl_CUSTOMERS"]
  /\ PyDict.get "pkg_CUSTOMERS" (assets st')
     = PyDict.get "pkg_CUSTOMERS" (assets st)
  /\ PyDict.get "pkg_CUSTOMERS" (assets st)
     = Some (DataAsset.mk "pkg_CUSTOMERS" "dbo.Customers" "source_table"
                          (Some "dbo") None None).
Proof.
  intros st st'. split; [reflexivity|]. split; [|reflexivity].
  apply (proj1 (proj2 (proj2 (ids_only_grow st
                                (file_of "etl" doc_count_only))))).
  vm_compute. intros [E|[]]. discriminate E.
Defined.

(** C9, counterexample.  Extracting [doc_count_only] on an instance that
    has extracted [doc_flow_only] under the same package name replaces the
    asset under [pkg_CUSTOMERS]; extracting [doc_flow_and_query] a second
    time replaces the transformation under [pkg_LoadCustomers]. *)
Lemma entries_are_replaced :
  (let st := fst (extract_from_dtsx init (file_of "pkg" doc_flow_only)) in
   let st' := fst (extract_from_dtsx st (file_of "pkg" doc_count_only)) in
   PyDict.get "pkg_CUSTOMERS" (assets st)
   = Some (DataAsset.mk "pkg_CUSTOMERS" "dbo.Customers" "source_table"
                        (Some "dbo") None None)
   /\ PyDict.get "pkg_CUSTOMERS" (assets st')
      = Some (DataAsset.mk "pkg_CUSTOMERS" "CUSTOMERS" "source_table"
                           None None None))
  /\
  (let st := fst (extract_from_dtsx init (file_of "pkg" doc_flow_and_query)) in
   let st' := fst (extract_from_dtsx st (file_of "pkg" doc_flow_and_query)) in
   PyDict.get "pkg_LoadCustomers" (transformations st)
   = Some (DataTransformation.mk "pkg_LoadCustomers" "LoadCustomers"
             "ssis_dataflow" (Some ["pkg_Source"]) (Some ["pkg_Destination"])
             None)
   /\ PyDict.get "pkg_LoadCustomers" (transformations st')
      = Some (DataTransformation.mk "pkg_LoadCustomers" "LoadCustomers"
                "ssis_dataflow" (Some ["pkg_Source"; "pkg_STGCUSTOMER"])
                (Some ["pkg_Destination"; "pkg_DIMCUSTOMER"]) None)).
Proof. vm_compute. auto. Qed.

(** C8, as amended.  Extracting the same file twice in succession leaves
    the ids of both mappings, and the whole asset mapping, as they were
    after the first extraction; a third extraction changes nothing at
    all, so that mappings and edges are identical from the second
    extraction on. *)
Theorem extract_twice (st : state) (p : dtsx) :
  let st1 := fst (extract_from_dtsx st p) in
  let st2 := fst (extract_from_dtsx st1 p) in
  let st3 := fst (extract_from_dtsx st2 p) in
  keys (assets st2) = keys (assets st1)
  /\ keys (transformations st2) = keys (transformations st1)
  /\ assets st2 = assets st1
  /\ st3 = st2
  /\ Views.edges_of_state st3 = Views.edges_of_state st2.
Proof.
  destruct p as [path package_name [| |root]]; cbv zeta;
    try (rewrite !extract_no_document by (simpl; discriminate); simpl;
         now repeat split).
  rewrite !extract_document. simpl.
  rewrite !register_all_set_all, !set_all_twice.
  set (a0 := set_all (entries (doc_assets package_name root)) (assets st)).
  assert (Hk : keys (set_all (doc_trans package_name root a0)
                       (set_all (doc_trans package_name root (assets st))
                          (transformations st)))
               = keys (set_all (doc_trans package_name root (assets st))
                         (transformations st))).
  { rewrite <- (set_all_twice (doc_trans package_name root (assets st))) at 2.
    apply keys_set_all_values; auto. apply doc_trans_keys. }
  repeat split; auto.
Qed.

(** C8, counterexample.  After the first extraction of
    [doc_flow_and_query] the data flow has one source and one target; the
    second extraction finds the assets of the query task already
    registered and adds them to both lists, and two edges appear. *)
Lemma second_extraction_adds_edges :
  let p := file_of "pkg" doc_flow_and_query in
  let st1 := fst (extract_from_dtsx init p) in
  let st2 := fst (extract_from_dtsx st1 p) in
  Views.edges_of_state st1
  = [("pkg_Source", "FEEDS_INTO", "pkg_LoadCustomers");
     ("pkg_LoadCustomers", "PRODUCES", "pkg_Destination")]
  /\ Views.edges_of_state st2
     = [("pkg_Source", "FEEDS_INTO", "pkg_LoadCustomers");
        ("pkg_STGCUSTOMER", "FEEDS_INTO", "pkg_LoadCustomers");
        ("pkg_LoadCustomers", "PRODUCES", "pkg_Destination");
        ("pkg_LoadCustomers", "PRODUCES", "pkg_DIMCUSTOMER")].
Proof. vm_compute. auto. Qed.

End ExtractorClaims.

(* ================================================================= *)
(** ** Query tasks *)

Module QueryTaskClaims.
Import Text PyDict Xml Extractor Trace PyDictFacts ExtractorFacts Fixtures.
Import ExtractorClaims.

Lemma statement_some task sql :
  _extract_sql_statement task = Some sql -> sql <> "" ->
  statement task = Some sql.
Proof.
  unfold statement. intros -> Hne. destruct sql; congruence.
Qed.

(** The entry a query task leaves in the run of assignments survives the
    tasks that follow, as long as those of the same name carry the same
    statement. *)
Lemma task_entry_survives package_name task sql tasks d :
  statement task = Some sql ->
  (forall other, In other tasks -> task_name other = task_name task ->
                 statement other = None \/ statement other = Some sql) ->
  In task tasks
  \/ PyDict.get (fst (task_transformation package_name task sql)) d
     = Some (snd (task_transformation package_name task sql)) ->
  PyDict.get (fst (task_transformation package_name task sql))
             (set_all (flat_map (task_trans package_name) tasks) d)
  = Some (snd (task_transformation package_name task sql)).
Proof.
  intros Hst. revert d.
  induction tasks as [|t tasks IH]; intros d Hsame Hin; simpl.
  - destruct Hin as [[]|H]. exact H.
  - rewrite set_all_app. apply IH.
    + intros other Ho. apply Hsame. now right.
    + assert (Hhere :
        In task tasks
        \/ (t = task
            \/ PyDict.get (fst (task_transformation package_name task sql)) d
               = Some (snd (task_transformation package_name task sql))))
        by (destruct Hin as [[H|H]|H]; auto).
      destruct Hhere as [H|Hhere]; [now left|right].
      unfold task_trans.
      destruct Hhere as [->|Hd].
      * rewrite Hst. simpl. apply get_set_same.
      * destruct (statement t) as [sql'|] eqn:Et; [|exact Hd].
        destruct (string_dec (task_name t) (task_name task)) as [Hn|Hn].
        -- destruct (Hsame t (or_introl eq_refl) Hn) as [H|H];
             rewrite Et in H; [discriminate|].
           injection H as ->.
           replace (task_transformation package_name t sql)
             with (task_transformation package_name task sql)
             by (unfold task_transformation; now rewrite Hn).
           apply get_set_same.
        -- unfold set_all. simpl fold_left.
           rewrite get_set_other; auto.
           simpl. intros H. apply fmt_id_inj in H. auto.
Qed.

(** C2, as amended.  A query task whose first [property] descendant with
    [SQL] in its name (capitals, as written) carries a non-empty text is
    registered under the id made of the package name and the task name,
    as a transformation of type [sql_task] whose logic is the first 500
    characters of the text, provided the query tasks of the document that
    share its name carry the same text. *)
Theorem query_task_transformation
    (st : state) (path package_name sql : string) (root task : Element) :
  In task (sql_tasks root) ->
  _extract_sql_statement task = Some sql ->
  sql <> "" ->
  (forall other, In other (sql_tasks root) ->
                 task_name other = task_name task ->
                 statement other = None \/ statement other = Some sql) ->
  let tid := fmt_id package_name (task_name task) in
  let st' :=
    fst (extract_from_dtsx st (mkDtsx path package_name (Document root))) in
  exists tr,
    PyDict.get tid (transformations st') = Some tr
    /\ DataTransformation.id tr = tid
    /\ DataTransformation.name tr = task_name task
    /\ DataTransformation.type tr = "sql_task"
    /\ DataTransformation.transformation_logic tr = Some (slice_to 500 sql).
Proof.
  intros Hin Hsql Hne Hsame tid st'.
  exists (snd (task_transformation package_name task sql)).
  split; [|now repeat split].
  subst st'. rewrite extract_document. simpl.
  unfold doc_trans. rewrite set_all_app.
  apply (task_entry_survives package_name task sql); auto.
  now apply statement_some.
Qed.

Lemma query_task_transformation_witness :
  exists tr,
    PyDict.get "pkg_Refresh"
      (transformations
         (fst (extract_from_dtsx init (file_of "pkg" doc_flow_and_query))))
    = Some tr
    /\ DataTransformation.id tr = "pkg_Refresh"
    /\ DataTransformation.name tr = "Refresh"
    /\ DataTransformation.type tr = "sql_task"
    /\ DataTransformation.transformation_logic tr
       = Some "INSERT INTO DimCustomer SELECT * FROM StgCustomer".
Proof.
  refine (query_task_transformation init "pkg.dtsx" "pkg"
            "INSERT INTO DimCustomer SELECT * FROM StgCustomer"
            doc_flow_and_query
            (sql_task "Refresh" "SQLStatement"
               "INSERT INTO DimCustomer SELECT * FROM StgCustomer")
            _ _ _ _).
  - simpl. auto.
  - reflexivity.
  - discriminate.
  - intros other [<-|[]] _. right. reflexivity.
Defined.

(** C2, counterexample.  A property named [SqlStatementSource] is not
    found, and the task yields nothing; and where the property is found,
    the transformation carries neither sources nor targets, although
    [_parse_sql_tables] finds one of each in the text. *)
Lemma query_task_without_lineage :
  snd (extract_from_dtsx init (file_of "pkg" doc_lower_sql)) = ([], [])
  /\ snd (snd (extract_from_dtsx init (file_of "pkg" doc_query)))
     = [("pkg_Refresh",
         DataTransformation.mk "pkg_Refresh" "Refresh" "sql_task" None None
           (Some "INSERT INTO DimCustomer SELECT * FROM StgCustomer"))]
  /\ _parse_sql_tables "INSERT INTO DimCustomer SELECT * FROM StgCustomer"
     = (["STGCUSTOMER"], ["DIMCUSTOMER"]).
Proof. vm_compute. auto. Qed.

End QueryTaskClaims.

(* ================================================================= *)
(** ** The lineage query *)

Module StoreClaims.
Import PyDict Extractor Store StoreShape Fixtures.

Lemma walks_length g ty n :
  forall v used w, In w (walks g ty n v used) -> List.length (fst w) <= n.
Proof.
  induction n as [|n IH]; intros v used w Hin; simpl in Hin.
  - contradiction.
  - apply in_flat_map in Hin. destruct Hin as [[i r] [_ Hin]].
    destruct ((src r =? v) && String.eqb (rtype r) ty && negb (mem_nat i used));
      [|contradiction].
    destruct Hin as [<-|Hin]; simpl; [lia|].
    apply in_map_iff in Hin. destruct Hin as [w' [<- Hw']]. simpl.
    apply IH in Hw'. lia.
Qed.

Lemma match_paths_length g ty n is_source is_target p :
  In p (match_paths g ty n is_source is_target) -> List.length (snd p) <= n.
Proof.
  unfold match_paths. intros Hin.
  apply in_flat_map in Hin. destruct Hin as [s [_ Hin]].
  apply in_map_iff in Hin. destruct Hin as [w [<- Hw]].
  apply filter_In in Hw. destruct Hw as [Hw _]. simpl.
  now apply walks_length in Hw.
Qed.

Lemma distinct_incl l p : In p (distinct l) -> In p l.
Proof.
  induction l as [|q l IH]; simpl; auto.
  intros [H|H]; auto. apply filter_In in H. right. tauto.
Qed.

Lemma path_nodes_length g p :
  List.length (path_nodes g p) <= List.length (snd p) + 1.
Proof.
  unfold path_nodes. cbv beta zeta. rewrite length_app.
  assert (H1 : List.length (match nth_error (nodes g) (fst p) with
                            | Some n => [n] | None => [] end) <= 1)
    by (destruct (nth_error _ _); simpl; lia).
  assert (H2 : forall l,
             List.length
               (flat_map (fun i => match nth_error (rels g) i with
                                   | Some r =>
                                       match nth_error (nodes g) (dst r) with
                                       | Some n => [n] | None => [] end
                                   | None => [] end) l)
             <= List.length l).
  { induction l as [|i l IH]; simpl; auto. rewrite length_app.
    destruct (nth_error (rels g) i) as [r|]; simpl; [|lia].
    destruct (nth_error (nodes g) (dst r)); simpl; lia. }
  specialize (H2 (snd p)). lia.
Qed.

(** C5.  [get_lineage_for_asset] is a total function of the store and the
    name, and on every store, cyclic or not, each path it returns lists at
    most [max_hops + 1] entities. *)
Theorem lineage_paths_bounded (g : graph) (asset_name : string) :
  Forall (fun path_data => List.length path_data <= max_hops + 1)
         (snd (get_lineage_for_asset g asset_name)).
Proof.
  unfold get_lineage_for_asset. simpl. apply Forall_forall.
  intros path_data Hin. apply in_map_iff in Hin.
  destruct Hin as [p [<- Hp]]. rewrite length_map.
  apply distinct_incl in Hp. unfold lineage_rows in Hp.
  assert (Hlen : List.length (snd p) <= max_hops).
  { apply in_app_or in Hp. destruct Hp as [Hp|Hp];
      now apply match_paths_length in Hp. }
  pose proof (path_nodes_length g p). unfold max_hops in *. lia.
Qed.

(** On the cyclic store the query does return paths: the one hop from [B]
    to [A], and the two hops from [A] round to [A]. *)
Example lineage_on_a_cycle :
  snd (get_lineage_for_asset cyclic "A")
  = [[mkEntry "a" "A" ["Asset"]; mkEntry "b" "B" ["Asset"];
      mkEntry "a" "A" ["Asset"]];
     [mkEntry "b" "B" ["Asset"]; mkEntry "a" "A" ["Asset"]]].
Proof. reflexivity. Qed.

(** *** The stores built by [create_lineage_graph] *)

Lemma combine_seq_nth {A : Type} (l : list A) s i (x : A) :
  In (i, x) (combine (seq s (List.length l)) l) ->
  s <= i /\ nth_error l (i - s) = Some x.
Proof.
  revert s. induction l as [|y l IH]; intros s; simpl; [tauto|].
  intros [[= <- <-]|H].
  - rewrite Nat.sub_diag. auto.
  - apply IH in H. destruct H as [Hle H].
    split; [lia|]. replace (i - s) with (S (i - S s)) by lia. exact H.
Qed.

Lemma match_nodes_spec p g i :
  In i (match_nodes p g) ->
  exists n, nth_error (nodes g) i = Some n /\ p n = true.
Proof.
  unfold match_nodes. intros H. apply in_map_iff in H.
  destruct H as [[j n] [<- H]]. apply filter_In in H. destruct H as [H Hp].
  apply combine_seq_nth in H. destruct H as [_ H].
  rewrite Nat.sub_0_r in H. eauto.
Qed.

Lemma rel_ok_grows g n r : rel_ok g r -> rel_ok (create_node n g) r.
Proof.
  assert (Hnth : forall i t, nth_error (nodes g) i = Some t ->
                             nth_error (nodes g ++ [n]) i = Some t).
  { intros i t H. rewrite nth_error_app1; auto.
    apply nth_error_Some. congruence. }
  intros [[Hty [t [Ht Hl]]]|[Hty [t [Ht Hl]]]]; [left|right];
    split; auto; exists t; simpl; auto.
Qed.

Lemma typed_create_node g n :
  labels n = ["Asset"] \/ labels n = ["Transformation"] ->
  typed g -> typed (create_node n g).
Proof.
  intros Hn [Hlab Hrel]. split.
  - intros m Hm. simpl in Hm. apply in_app_or in Hm.
    destruct Hm as [Hm|[<-|[]]]; auto.
  - intros r Hr. apply rel_ok_grows. auto.
Qed.

Lemma not_asset g t :
  labelled g -> In t (nodes g) -> has_label "Transformation" t = true ->
  has_label "Asset" t = false.
Proof.
  intros Hlab Ht Hp. destruct (Hlab t Ht) as [H|H];
    unfold has_label in *; rewrite H in *; [discriminate|reflexivity].
Qed.

Lemma typed_feeds_into g source_id tid :
  typed g ->
  typed (create_rels "Asset" source_id "Transformation" tid "FEEDS_INTO" g).
Proof.
  intros [Hlab Hrel]. split; [exact Hlab|].
  intros r Hr. simpl in Hr. apply in_app_or in Hr.
  destruct Hr as [Hr|Hr]; [now apply Hrel|].
  apply in_map_iff in Hr. destruct Hr as [[a b] [<- Hab]].
  apply in_flat_map in Hab. destruct Hab as [a' [_ Hab]].
  apply in_map_iff in Hab. destruct Hab as [b' [[= <- <-] Hb]].
  apply match_nodes_spec in Hb. destruct Hb as [t [Ht Hp]].
  unfold by_label_id in Hp. apply andb_true_iff in Hp. destruct Hp as [Hp _].
  left. split; [reflexivity|]. exists t. split; [exact Ht|].
  apply nth_error_In in Ht. now apply (not_asset g).
Qed.

Lemma typed_produces g tid target_id :
  typed g ->
  typed (create_rels "Transformation" tid "Asset" target_id "PRODUCES" g).
Proof.
  intros [Hlab Hrel]. split; [exact Hlab|].
  intros r Hr. simpl in Hr. apply in_app_or in Hr.
  destruct Hr as [Hr|Hr]; [now apply Hrel|].
  apply in_map_iff in Hr. destruct Hr as [[a b] [<- Hab]].
  apply in_flat_map in Hab. destruct Hab as [a' [Ha Hab]].
  apply in_map_iff in Hab. destruct Hab as [b' [[= <- <-] _]].
  apply match_nodes_spec in Ha. destruct Ha as [t [Ht Hp]].
  unfold by_label_id in Hp. apply andb_true_iff in Hp. destruct Hp as [Hp _].
  right. split; [reflexivity|]. exists t. split; [exact Ht|].
  apply nth_error_In in Ht. now apply (not_asset g).
Qed.

Lemma fold_left_typed {A : Type} (f : graph -> A -> graph) l :
  (forall g x, typed g -> typed (f g x)) ->
  forall g, typed g -> typed (fold_left f l g).
Proof.
  intros Hf. induction l as [|x l IH]; intros g Hg; simpl; auto.
Qed.

Lemma typed_create_lineage_graph assets transformations :
  typed (create_lineage_graph assets transformations).
Proof.
  unfold create_lineage_graph. apply fold_left_typed.
  - intros g t Hg. unfold add_transformation.
    apply fold_left_typed; [intros; now apply typed_produces|].
    apply fold_left_typed; [intros; now apply typed_feeds_into|].
    apply typed_create_node; auto.
  - apply fold_left_typed.
    + intros g a Hg. apply typed_create_node; auto.
    + split; [intros n []|intros r []].
Qed.

Lemma walk_ends g ty n :
  forall v used w, In w (walks g ty n v used) ->
  (exists r, In r (rels g) /\ rtype r = ty /\ src r = v)
  /\ (exists r, In r (rels g) /\ rtype r = ty /\ dst r = snd w).
Proof.
  induction n as [|n IH]; intros v used w Hin; simpl in Hin; [contradiction|].
  apply in_flat_map in Hin. destruct Hin as [[i r] [Hir Hin]].
  apply in_combine_r in Hir.
  destruct ((src r =? v) && String.eqb (rtype r) ty && negb (mem_nat i used))
    eqn:E; [|contradiction].
  apply andb_true_iff in E. destruct E as [E _].
  apply andb_true_iff in E. destruct E as [Es Et].
  apply Nat.eqb_eq in Es. apply String.eqb_eq in Et.
  split; [eauto|].
  destruct Hin as [<-|Hin]; simpl; [eauto|].
  apply in_map_iff in Hin. destruct Hin as [w' [<- Hw']]. simpl.
  now apply IH in Hw'.
Qed.

Lemma no_rows {A : Type} (l : list A) : (forall x, ~ In x l) -> l = [].
Proof. destruct l as [|x l]; auto. intros H. destruct (H x). now left. Qed.

(** X20.  On a store built by [create_lineage_graph], whatever the
    mappings and whatever the name, the query of [get_lineage_for_asset]
    matches no path: a [FEEDS_INTO] relationship never ends at an asset, and a
    [PRODUCES] relationship never starts at one. *)
Lemma lineage_of_built_store_is_empty assets transformations asset_name :
  snd (get_lineage_for_asset
         (create_lineage_graph assets transformations) asset_name) = [].
Proof.
  pose proof (typed_create_lineage_graph assets transformations) as [_ Hrel].
  set (g := create_lineage_graph assets transformations) in *.
  unfold get_lineage_for_asset, lineage_rows. simpl.
  assert (H1 : match_paths g "FEEDS_INTO" max_hops is_asset
                           (is_asset_named asset_name) = []).
  { apply no_rows. intros p Hp. unfold match_paths in Hp.
    apply in_flat_map in Hp. destruct Hp as [s [_ Hp]].
    apply in_map_iff in Hp. destruct Hp as [w [_ Hw]].
    apply filter_In in Hw. destruct Hw as [Hw Ht].
    apply walk_ends in Hw. destruct Hw as [_ [r [Hr [Hty Hdst]]]].
    rewrite <- Hdst in Ht.
    destruct (Hrel r Hr) as [[_ [t [Hnth Hna]]]|[Hty' _]]; [|congruence].
    rewrite Hnth in Ht. unfold is_asset_named in Ht. rewrite Hna in Ht.
    discriminate. }
  assert (H2 : match_paths g "PRODUCES" max_hops (is_asset_named asset_name)
                           is_asset = []).
  { apply no_rows. intros p Hp. unfold match_paths in Hp.
    apply in_flat_map in Hp. destruct Hp as [s [Hs Hp]].
    apply match_nodes_spec in Hs. destruct Hs as [n [Hn Hlab]].
    apply in_map_iff in Hp. destruct Hp as [w [_ Hw]].
    apply filter_In in Hw. destruct Hw as [Hw _].
    apply walk_ends in Hw. destruct Hw as [[r [Hr [Hty Hsrc]]] _].
    destruct (Hrel r Hr) as [[Hty' _]|[_ [t [Hnth Hna]]]]; [congruence|].
    rewrite Hsrc, Hn in Hnth. injection Hnth as <-.
    unfold is_asset_named in Hlab. rewrite Hna in Hlab. discriminate. }
  now rewrite H1, H2.
Qed.

(** C3.  The store built from the extraction of [doc_load] holds the
    assets [StgCustomer] and [DimCustomer], the transformation
    [LoadCustomers], one [FEEDS_INTO] and one [PRODUCES] relationship;
    the query for [DimCustomer] returns no path. *)
Theorem lineage_of_DimCustomer_is_empty :
  let '(assets, transformations) :=
    snd (extract_from_dtsx init (file_of "pkg" doc_load)) in
  let g := create_lineage_graph assets transformations in
  map name (nodes g) = ["StgCustomer"; "DimCustomer"; "LoadCustomers"]
  /\ rels g = [mkRel 0 "FEEDS_INTO" 2; mkRel 2 "PRODUCES" 1]
  /\ get_lineage_for_asset g "DimCustomer" = ("DimCustomer", []).
Proof. vm_compute. auto. Qed.

End StoreClaims.

(* ================================================================= *)
(** ** The matcher and the scan *)

Module RegexFacts.
Import Text Regex Shape.

Lemma word_not_space c : is_word c = true -> is_space c = false.
Proof.
  destruct c as [[] [] [] [] [] [] [] []]; vm_compute; congruence.
Qed.

Lemma span_app p s a b : span p s = (a, b) -> s = a ++ b.
Proof.
  revert a b. induction s as [|c s IH]; intros a b; simpl.
  - now intros [= <- <-].
  - destruct (p c); [|now intros [= <- <-]].
    destruct (span p s) as [a' b']. intros [= <- <-].
    simpl. f_equal. now apply IH.
Qed.

Lemma span_all p s a b :
  span p s = (a, b) -> Forall (fun c => p c = true) a.
Proof.
  revert a b. induction s as [|c s IH]; intros a b; simpl.
  - intros [= <- <-]. constructor.
  - destruct (p c) eqn:E; [|intros [= <- <-]; constructor].
    destruct (span p s) as [a' b']. intros [= <- <-].
    constructor; eauto.
Qed.

(** The run stops at a character outside the class. *)
Lemma span_stop p s a b :
  span p s = (a, b) -> match b with [] => True | c :: _ => p c = false end.
Proof.
  revert a b. induction s as [|c s IH]; intros a b; simpl.
  - now intros [= <- <-].
  - destruct (p c) eqn:E.
    + destruct (span p s) as [a' b']. intros [= <- <-].
      exact (IH _ _ eq_refl).
    + intros [= <- <-]. exact E.
Qed.

Lemma span_exact p a b :
  Forall (fun c => p c = true) a ->
  match b with [] => True | c :: _ => p c = false end ->
  span p (a ++ b) = (a, b).
Proof.
  intros Ha Hb. induction Ha as [|c a Hc Ha IH]; simpl.
  - destruct b as [|c b]; simpl; auto. now rewrite Hb.
  - now rewrite Hc, IH.
Qed.

Lemma lit_app k s r : lit k s = Some r -> s = k ++ r.
Proof.
  revert s. induction k as [|a k IH]; intros s; simpl.
  - now intros [= ->].
  - destruct s as [|b s]; [discriminate|].
    destruct (Ascii.eqb a b) eqn:E; [|discriminate].
    apply Ascii.eqb_eq in E. subst b. intros H. f_equal. now apply IH.
Qed.

Lemma lit_exact k r : lit k (k ++ r) = Some r.
Proof.
  induction k as [|a k IH]; simpl; auto. now rewrite Ascii.eqb_refl.
Qed.

Lemma ws_plus_inv s r :
  ws_plus s = Some r ->
  exists c ws, s = c :: ws ++ r /\ is_space c = true /\ spaces ws.
Proof.
  unfold ws_plus. destruct (span is_space s) as [[|c ws] b] eqn:E;
    [discriminate|]. intros [= ->].
  pose proof (span_app _ _ _ _ E) as ->.
  pose proof (span_all _ _ _ _ E) as Hall. inversion Hall; subst.
  exists c, ws. auto.
Qed.

Lemma ident_inv s cap r :
  ident s = Some (cap, r) -> s = cap ++ r /\ solid cap /\ cap <> [].
Proof.
  unfold ident. destruct (span is_word s) as [w b] eqn:E.
  pose proof (span_app _ _ _ _ E) as ->.
  assert (Hw : solid w).
  { eapply Forall_impl; [|eapply span_all; eauto].
    intros c. apply word_not_space. }
  destruct w as [|c0 w]; [discriminate|].
  assert (Hplain : Some (c0 :: w, b) = Some (cap, r) ->
                   (c0 :: w) ++ b = cap ++ r /\ solid cap /\ cap <> []).
  { intros [= <- <-]. repeat split; auto. discriminate. }
  destruct b as [|d b]; auto.
  destruct (Ascii.eqb d "."%char) eqn:Ed.
  - apply Ascii.eqb_eq in Ed. subst d.
    destruct (span is_word b) as [w2 b2] eqn:E2.
    destruct w2 as [|c2 w2]; auto.
    intros [= <- <-]. pose proof (span_app _ _ _ _ E2) as ->.
    repeat split.
    + simpl. f_equal. now rewrite <- app_assoc.
    + change (solid ((c0 :: w) ++ "."%char :: c2 :: w2)).
      apply Forall_app. split; auto. constructor; [reflexivity|].
      eapply Forall_impl; [|eapply span_all; eauto].
      intros c. apply word_not_space.
    + discriminate.
  - assert (Hd : d <> "."%char) by (intros ->; now rewrite Ascii.eqb_refl in Ed).
    clear Ed. destruct d as [[] [] [] [] [] [] [] []]; auto.
    now destruct Hd.
Qed.

(** The shape of a match: the keywords with their white space, then the
    capture, which holds no white space. *)
Lemma match_here_one k s cap r :
  match_here [k] s = Some (cap, r) ->
  exists c ws,
    s = k ++ c :: ws ++ cap ++ r
    /\ is_space c = true /\ spaces ws /\ solid cap /\ cap <> [].
Proof.
  simpl. destruct (lit k s) as [s1|] eqn:E1; [|discriminate].
  destruct (ws_plus s1) as [s2|] eqn:E2; [|discriminate].
  intros H. apply lit_app in E1.
  apply ws_plus_inv in E2. destruct E2 as [c [ws [-> [Hc Hws]]]].
  apply ident_inv in H. destruct H as [-> [Hcap Hne]].
  exists c, ws. subst s. auto.
Qed.

Lemma match_here_two k1 k2 s cap r :
  match_here [k1; k2] s = Some (cap, r) ->
  exists c ws s',
    s = k1 ++ c :: ws ++ s'
    /\ is_space c = true /\ spaces ws
    /\ match_here [k2] s' = Some (cap, r).
Proof.
  cbn [match_here].
  destruct (lit k1 s) as [s1|] eqn:E1; [|discriminate].
  destruct (ws_plus s1) as [s2|] eqn:E2; [|discriminate].
  intros H. apply lit_app in E1.
  apply ws_plus_inv in E2. destruct E2 as [c [ws [-> [Hc Hws]]]].
  exists c, ws, s2. subst s. auto.
Qed.

(** Every capture of the scan is the capture of a match at some
    position. *)
Lemma scan_sound p cap s :
  forall k, In cap (scan p s k) ->
  exists pre suf rest, s = pre ++ suf /\ match_here p suf = Some (cap, rest).
Proof.
  induction s as [|c s IH]; intros k Hin; simpl in Hin; [contradiction|].
  assert (Hlater : forall k', In cap (scan p s k') ->
            exists pre suf rest,
              c :: s = pre ++ suf /\ match_here p suf = Some (cap, rest)).
  { intros k' H. destruct (IH k' H) as [pre [suf [rest [-> Hm]]]].
    exists (c :: pre), suf, rest. auto. }
  destruct k as [|k]; eauto.
  destruct (match_here p (c :: s)) as [[cap' rest]|] eqn:E; eauto.
  destruct Hin as [<-|Hin]; eauto.
  exists [], (c :: s), rest. auto.
Qed.

Lemma clear_tail p c a s : clear p (c :: a) s -> clear p a s.
Proof.
  intros H q u cap rest -> Hu Hm.
  apply (H (c :: q) u cap rest); auto.
Qed.

(** A match at the end of a clear stretch is found by the scan. *)
Lemma scan_reaches p cap rest s :
  match_here p s = Some (cap, rest) -> s <> [] ->
  forall a, clear p a s ->
  forall k, k <= List.length a -> In cap (scan p (a ++ s) k).
Proof.
  intros Hm Hs. induction a as [|c a IH]; intros Hclear k Hk; simpl in *.
  - destruct s as [|c s]; [congruence|].
    assert (k = 0) by lia. subst k. simpl. rewrite Hm. now left.
  - pose proof (clear_tail _ _ _ _ Hclear) as Hclear'.
    destruct k as [|k]; [|apply IH; auto; lia].
    destruct (match_here p (c :: a ++ s)) as [[cap' rest']|] eqn:E.
    + right. apply IH; auto.
      pose proof (Hclear [] (c :: a) cap' rest' eq_refl
                         ltac:(discriminate) E) as Hlen.
      rewrite length_app. destruct (List.length rest'); lia.
    + apply IH; auto. lia.
Qed.

(** A run of white space at the front of a list ends before the first
    character that is not white space. *)
Lemma spaces_stop ws r l d t :
  spaces ws -> is_space d = false ->
  ws ++ r = l ++ d :: t -> exists m, r = m ++ d :: t.
Proof.
  intros Hws Hd. revert l. induction Hws as [|c ws Hc Hws IH]; intros l H.
  - exists l. exact H.
  - destruct l as [|c' l]; simpl in H.
    + injection H as -> _. congruence.
    + injection H as _ H. eauto.
Qed.

(** A stretch without white space at the front of a list ends before the
    first white space. *)
Lemma solid_stop cap r m c t :
  solid cap -> is_space c = true ->
  cap ++ r = m ++ c :: t -> List.length t < List.length r.
Proof.
  intros Hcap Hc. revert m. induction Hcap as [|x cap Hx Hcap IH]; intros m H.
  - simpl in H. subst r. rewrite length_app. simpl. lia.
  - destruct m as [|x' m]; simpl in H.
    + injection H as -> _. congruence.
    + injection H as _ H. eauto.
Qed.

Lemma app_eq_split {A : Type} (q a pre t : list A) :
  q ++ a = pre ++ t ->
  (exists l, t = l ++ a) \/ (exists l, a = l ++ t).
Proof.
  intros H. apply app_eq_app in H.
  destruct H as [l [[-> ->]|[-> ->]]]; eauto.
Qed.

(** A match of [FROM ...] that starts before [DELETE\s+] does not reach
    past it. *)
Lemma from_clear_before_delete pre c ws s :
  is_space c = true -> spaces ws ->
  clear from_pattern (pre ++ kw "DELETE" ++ c :: ws) s.
Proof.
  intros Hc Hws q u cap rest Hsplit Hu Hm.
  apply match_here_one in Hm.
  destruct Hm as [c1 [ws1 [Heq [Hc1 [Hws1 [Hcap _]]]]]].
  symmetry in Hsplit. apply app_eq_split in Hsplit.
  destruct Hsplit as [[l Hl]|[l ->]].
  - (* the match would start inside [DELETE\s+] *)
    exfalso. destruct u as [|f u]; [congruence|].
    simpl in Heq. injection Heq as -> _.
    assert (Hin : In "F"%char (kw "DELETE" ++ c :: ws)).
    { rewrite Hl. apply in_or_app. right. now left. }
    simpl in Hin.
    repeat (destruct Hin as [Hin|Hin]; [try discriminate|]).
    + subst c. discriminate.
    + unfold spaces in Hws. rewrite Forall_forall in Hws.
      apply Hws in Hin. discriminate.
  - (* the match starts before it *)
    rewrite <- !app_assoc in Heq.
    assert (H4 : exists l', l = kw "FROM" ++ l').
    { destruct l as [|x1 [|x2 [|x3 [|x4 l']]]]; simpl in Heq;
        try discriminate.
      injection Heq as -> -> -> -> _. now exists l'. }
    destruct H4 as [l' ->]. rewrite <- app_assoc in Heq.
    apply app_inv_head in Heq.
    change (kw "DELETE" ++ (c :: ws) ++ s)
      with ("D"%char :: (kw "ELETE" ++ c :: ws ++ s)) in Heq.
    symmetry in Heq.
    destruct (spaces_stop (c1 :: ws1) (cap ++ rest) l' "D"%char _
                ltac:(constructor; auto) eq_refl Heq) as [m Hm].
    change (m ++ "D"%char :: kw "ELETE" ++ c :: ws ++ s)
      with (m ++ kw "DELETE" ++ c :: ws ++ s) in Hm.
    rewrite app_assoc in Hm.
    pose proof (solid_stop _ _ _ _ _ Hcap Hc Hm) as Hlen.
    rewrite length_app in Hlen. lia.
Qed.

(** Whatever [DELETE\s+FROM\s+] captures, [FROM\s+] captures too. *)
Lemma scan_delete_in_from cap s :
  In cap (scan delete_pattern s 0) -> In cap (scan from_pattern s 0).
Proof.
  intros Hin. apply scan_sound in Hin.
  destruct Hin as [pre [suf [rest [-> Hm]]]].
  apply match_here_two in Hm.
  destruct Hm as [c [ws [s' [-> [Hc [Hws Hm]]]]]].
  change (pre ++ kw "DELETE" ++ c :: ws ++ s')
    with (pre ++ kw "DELETE" ++ (c :: ws) ++ s').
  rewrite !app_assoc. rewrite <- (app_assoc pre).
  apply (scan_reaches from_pattern cap rest s' Hm).
  - destruct s'; [discriminate|discriminate].
  - now apply from_clear_before_delete.
  - lia.
Qed.

End RegexFacts.

(* ================================================================= *)
(** ** The scan of a query text *)

Module ShapeFacts.
Import Text Regex Clauses Shape RegexFacts.

(** *** The scan along a text *)







(** *** Strings and character lists *)

Lemma prefix_of_app p s : prefix_of p (p ++ s) = true.
Proof.
  induction p as [|a p IH]; simpl; auto. now rewrite Ascii.eqb_refl.
Qed.


Lemma contains_chars_inside k pre post :
  contains_chars k (pre ++ k ++ post) = true.
Proof.
  induction pre as [|c pre IH]; simpl.
  - pose proof (prefix_of_app k post) as H.
    destruct (k ++ post); simpl; now rewrite H.
  - rewrite IH. apply orb_true_r.
Qed.

Lemma chars_append a b :
  list_ascii_of_string (String.append a b)
  = list_ascii_of_string a ++ list_ascii_of_string b.
Proof. induction a as [|c a IH]; simpl; auto. now rewrite IH. Qed.

Lemma string_of_app a b :
  string_of_list_ascii (a ++ b)
  = String.append (string_of_list_ascii a) (string_of_list_ascii b).
Proof. induction a as [|c a IH]; simpl; auto. now rewrite IH. Qed.


(** *** Character classes *)










(** *** Keywords *)










(** *** Stretches in which no match starts *)











(** *** Identifiers *)



(** *** Clauses *)





(** *** Marked texts *)














(** *** Where a match stands *)





End ShapeFacts.

(* ================================================================= *)
(** ** Sets *)

Module PySetFacts.
Import PySet.

Lemma mem_In x s : mem x s = true <-> In x s.
Proof.
  unfold mem. rewrite existsb_exists. split.
  - intros [y [Hy E]]. apply String.eqb_eq in E. now subst.
  - intros H. exists x. split; auto. apply String.eqb_refl.
Qed.

Lemma In_add x y s : In x (add y s) <-> x = y \/ In x s.
Proof.
  unfold add. destruct (mem y s) eqn:E.
  - apply mem_In in E. split; auto. intros [->|H]; auto.
  - rewrite in_app_iff. simpl. intuition.
Qed.

Lemma In_update x xs : forall s, In x (update s xs) <-> In x s \/ In x xs.
Proof.
  unfold update. induction xs as [|y xs IH]; intros s; simpl.
  - tauto.
  - rewrite IH, In_add. intuition.
Qed.



End PySetFacts.

(* ================================================================= *)
(** ** The resolver *)

Module ResolverClaims.
Import Text Regex Extractor Clauses Shape RegexFacts ShapeFacts PySetFacts.
Import Fixtures.

Lemma sources_spec sql t :
  In t (fst (_parse_sql_tables sql))
  <-> In t (findall from_pattern (upper sql))
      \/ In t (findall join_pattern (upper sql)).
Proof.
  unfold _parse_sql_tables. simpl. rewrite !In_update. simpl. tauto.
Qed.

Lemma targets_spec sql t :
  In t (snd (_parse_sql_tables sql))
  <-> In t (findall insert_pattern (upper sql))
      \/ In t (findall update_pattern (upper sql))
      \/ In t (findall delete_pattern (upper sql)).
Proof.
  unfold _parse_sql_tables. simpl. rewrite !In_update. simpl. tauto.
Qed.

(** C10.  Every identifier that the [DELETE FROM] pattern puts into the
    target set is also in the source set that [_parse_sql_tables]
    returns: the [FROM] pattern matches at the same place. *)
Theorem delete_target_is_also_source (sql t : string) :
  In t (findall delete_pattern (upper sql)) ->
  In t (snd (_parse_sql_tables sql)) /\ In t (fst (_parse_sql_tables sql)).
Proof.
  intros Hin. split.
  - apply targets_spec. auto.
  - apply sources_spec. left. unfold findall in *.
    apply in_map_iff in Hin. destruct Hin as [cap [<- Hcap]].
    apply in_map. now apply scan_delete_in_from.
Qed.

Lemma delete_target_is_also_source_witness :
  In "T" (snd (_parse_sql_tables "DELETE FROM T"))
  /\ In "T" (fst (_parse_sql_tables "DELETE FROM T")).
Proof.
  apply (delete_target_is_also_source "DELETE FROM T" "T").
  vm_compute. auto.
Defined.











End ResolverClaims.

(* ================================================================= *)
(** ** The states an extractor reaches *)

Module ReachFacts.
Import Text PyDict Xml Extractor Trace Reach.
Import PyDictFacts PyDictMore ExtractorFacts ExtractorClaims Fixtures.

Lemma entries_keyed l k a : In (k, a) (entries l) -> DataAsset.id a = k.
Proof.
  unfold entries. intros H. apply in_map_iff in H.
  destruct H as [x [[= <- <-] _]]. reflexivity.
Qed.

Lemma well_keyed_set_all {V : Type} (id_of : V -> string) w d :
  (forall k v, In (k, v) w -> id_of v = k) ->
  well_keyed id_of d -> well_keyed id_of (set_all w d).
Proof.
  intros Hw [Hnd Hid]. split.
  - now apply NoDup_keys_set_all.
  - intros k v H. apply in_set_all in H. destruct H; eauto.
Qed.

Lemma well_keyed_register_all l d :
  well_keyed DataAsset.id d -> well_keyed DataAsset.id (register_all l d).
Proof.
  rewrite register_all_set_all. apply well_keyed_set_all.
  intros k a. apply entries_keyed.
Qed.

Lemma values_keyed {V : Type} (id_of : V -> string) (d : dict V) v :
  well_keyed id_of d -> In v (values d) -> In (id_of v) (keys d).
Proof.
  intros [_ Hid] H. unfold values in H. apply in_map_iff in H.
  destruct H as [[k v'] [<- H]]. simpl. rewrite (Hid _ _ H).
  apply (in_map fst) in H. exact H.
Qed.

Lemma ids_of_type_in kind d x :
  In x (ids_of_type kind d) ->
  exists a, In a (values d) /\ DataAsset.id a = x /\ DataAsset.type a = kind.
Proof.
  unfold ids_of_type. intros H. apply in_map_iff in H.
  destruct H as [a [<- H]]. apply filter_In in H. destruct H as [H E].
  apply String.eqb_eq in E. eauto.
Qed.

Lemma ids_of_type_registered kind d x :
  well_keyed DataAsset.id d -> In x (ids_of_type kind d) -> In x (keys d).
Proof.
  intros Hd H. apply ids_of_type_in in H. destruct H as [a [Ha [<- _]]].
  now apply values_keyed.
Qed.

Lemma ids_of_type_apart d x :
  well_keyed DataAsset.id d ->
  In x (ids_of_type "source_table" d) ->
  In x (ids_of_type "target_table" d) -> False.
Proof.
  intros [Hnd Hid] Hs Ht.
  apply ids_of_type_in in Hs. destruct Hs as [a [Ha [Hx Hty]]].
  apply ids_of_type_in in Ht. destruct Ht as [b [Hb [Hx' Hty']]].
  unfold values in Ha, Hb.
  apply in_map_iff in Ha. destruct Ha as [[k a'] [Ea Ha]].
  apply in_map_iff in Hb. destruct Hb as [[k' b'] [Eb Hb]].
  simpl in Ea, Eb. subst a' b'.
  pose proof (Hid _ _ Ha) as Hk. pose proof (Hid _ _ Hb) as Hk'.
  assert (a = b).
  { apply (NoDup_keys_functional d x); auto; congruence. }
  subst b. rewrite Hty in Hty'. discriminate.
Qed.

(** Each transformation of a data flow lists the assets present after
    some first part of the assets of the document has been registered. *)
Lemma flow_trans_in package_name dfs : forall a e,
  In e (flow_trans package_name dfs a) ->
  exists pre post df,
    flat_map (data_flow_assets package_name) dfs = pre ++ post
    /\ e = flow_transformation package_name df (register_all pre a).
Proof.
  induction dfs as [|df dfs IH]; intros a e H; simpl in H; [contradiction|].
  destruct H as [<-|H].
  - exists (data_flow_assets package_name df),
      (flat_map (data_flow_assets package_name) dfs), df. auto.
  - apply IH in H. destruct H as [pre [post [df' [Heq ->]]]].
    exists (data_flow_assets package_name df ++ pre), post, df'. split.
    + simpl. now rewrite Heq, app_assoc.
    + now rewrite register_all_app.
Qed.

Lemma task_trans_in package_name tasks e :
  In e (flat_map (task_trans package_name) tasks) ->
  exists task sql,
    In task tasks /\ statement task = Some sql
    /\ e = task_transformation package_name task sql.
Proof.
  intros H. apply in_flat_map in H. destruct H as [task [Ht H]].
  unfold task_trans in H. destruct (statement task) as [sql|] eqn:E;
    [|contradiction].
  destruct H as [<-|[]]. eauto.
Qed.

Lemma doc_trans_in package_name root a e :
  In e (doc_trans package_name root a) ->
  (exists pre post df,
      doc_assets package_name root = pre ++ post
      /\ e = flow_transformation package_name df (register_all pre a))
  \/ (exists task sql, e = task_transformation package_name task sql).
Proof.
  unfold doc_trans, doc_assets. intros H. apply in_app_or in H.
  destruct H as [H|H].
  - left. apply flow_trans_in in H. destruct H as [pre [post [df [Heq ->]]]].
    exists pre, (post ++ flat_map (task_assets package_name) (sql_tasks root)),
      df.
    split; auto. now rewrite Heq, app_assoc.
  - right. apply task_trans_in in H. destruct H as [t [sql [_ [_ ->]]]].
    eauto.
Qed.

Lemma doc_trans_keyed package_name root a k t :
  In (k, t) (doc_trans package_name root a) -> DataTransformation.id t = k.
Proof.
  intros H. apply doc_trans_in in H.
  destruct H as [[pre [post [df [_ [= -> ->]]]]]|[task [sql [= -> ->]]]];
    reflexivity.
Qed.

Lemma string_length_of_list l :
  String.length (string_of_list_ascii l) = List.length l.
Proof. induction l as [|c l IH]; simpl; auto. Qed.

Lemma slice_to_length n s : String.length (slice_to n s) <= n.
Proof.
  unfold slice_to. rewrite string_length_of_list, length_firstn. lia.
Qed.

Lemma consistent_init : consistent init.
Proof.
  unfold consistent, well_keyed, referenced, separated, excerpts_bounded.
  simpl. repeat split; try apply NoDup_nil; intros; contradiction.
Qed.

Lemma consistent_extract st p :
  consistent st -> consistent (fst (extract_from_dtsx st p)).
Proof.
  intros Hc. destruct p as [path package_name [| |root]];
    try (rewrite extract_no_document by (simpl; discriminate); exact Hc).
  rewrite extract_document. cbv zeta. cbn [fst].
  destruct Hc as [Ha [Ht [Href [Hsep Hexc]]]].
  set (A' := register_all (doc_assets package_name root) (assets st)).
  assert (Ha' : well_keyed DataAsset.id A')
    by now apply well_keyed_register_all.
  assert (Hkeep : forall x, In x (keys (assets st)) -> In x (keys A')).
  { intros x Hx. unfold A'. rewrite register_all_set_all.
    now apply keys_kept. }
  assert (Hflow : forall pre post x,
             doc_assets package_name root = pre ++ post ->
             In x (keys (register_all pre (assets st))) -> In x (keys A')).
  { intros pre post x Heq Hx. unfold A'.
    rewrite Heq, register_all_app, (register_all_set_all post).
    now apply keys_kept. }
  repeat split; cbn [assets transformations].
  - apply Ha'.
  - apply Ha'.
  - apply NoDup_keys_set_all, Ht.
  - intros k t H. apply in_set_all in H. destruct H as [H|H].
    + eapply doc_trans_keyed; eauto.
    + now apply Ht.
  - intros k t x H Hx. cbn [assets transformations] in *.
    apply in_set_all in H. destruct H as [H|H].
    + apply doc_trans_in in H.
      destruct H as [[pre [post [df [Heq [= -> ->]]]]]
                    |[task [sql [= -> ->]]]]; simpl in Hx; [|tauto].
      apply (Hflow pre post x Heq).
      assert (Hpre : well_keyed DataAsset.id (register_all pre (assets st)))
        by now apply well_keyed_register_all.
      destruct Hx as [Hx|Hx];
        now apply (ids_of_type_registered _ _ _ Hpre) in Hx.
    + apply Hkeep. eapply Href; eauto.
  - intros k t x H Hs Hg. cbn [assets transformations] in *.
    apply in_set_all in H. destruct H as [H|H].
    + apply doc_trans_in in H.
      destruct H as [[pre [post [df [Heq [= -> ->]]]]]
                    |[task [sql [= -> ->]]]]; simpl in Hs, Hg; [|tauto].
      apply (ids_of_type_apart (register_all pre (assets st)) x); auto.
      now apply well_keyed_register_all.
    + eapply Hsep; eauto.
  - intros k t l H Hl. cbn [assets transformations] in *.
    apply in_set_all in H. destruct H as [H|H].
    + apply doc_trans_in in H.
      destruct H as [[pre [post [df [Heq [= -> ->]]]]]
                    |[task [sql [= -> ->]]]]; simpl in Hl; [discriminate|].
      injection Hl as <-. apply slice_to_length.
    + eapply Hexc; eauto.
Qed.

Lemma reachable_consistent st : reachable st -> consistent st.
Proof.
  induction 1 as [|st p _ IH]; [apply consistent_init|].
  now apply consistent_extract.
Qed.

End ReachFacts.

(* ================================================================= *)
(** ** What every extraction keeps and adds *)

Module ExtractionProperties.
Import Text PyDict Xml Extractor Trace Reach.
Import PyDictFacts PyDictMore ExtractorFacts ExtractorClaims ReachFacts.
Import Fixtures.

(** X1.  In every state an extractor reaches, the keys of each mapping
    are distinct and every asset and every transformation is stored under
    its own [id]. *)
Theorem reachable_well_keyed (st : state) :
  reachable st ->
  well_keyed DataAsset.id (assets st)
  /\ well_keyed DataTransformation.id (transformations st).
Proof.
  intros H. apply reachable_consistent in H. split; apply H.
Qed.

Lemma reachable_well_keyed_witness :
  let st := fst (extract_from_dtsx init (file_of "pkg" doc_flow_and_query)) in
  well_keyed DataAsset.id (assets st)
  /\ well_keyed DataTransformation.id (transformations st).
Proof.
  intros st. apply reachable_well_keyed.
  apply reach_extract, reach_init.
Defined.

(** X2.  In every state an extractor reaches, each id listed in the
    [source_assets] or [target_assets] of a transformation is the key of
    a registered asset: extraction leaves no dangling reference. *)
Theorem reachable_referenced (st : state) :
  reachable st -> referenced st.
Proof.
  intros H. apply reachable_consistent in H. apply H.
Qed.

Lemma reachable_referenced_witness :
  referenced
    (fst (extract_from_dtsx
            (fst (extract_from_dtsx init (file_of "pkg" doc_flow_and_query)))
            (file_of "pkg" doc_flow_and_query))).
Proof.
  apply reachable_referenced.
  apply reach_extract, reach_extract, reach_init.
Defined.

(** X3.  In every state an extractor reaches, no transformation lists the
    same id among its sources and among its targets: an asset has one
    type when the lists are built. *)
Theorem reachable_separated (st : state) :
  reachable st -> separated st.
Proof.
  intros H. apply reachable_consistent in H. apply H.
Qed.

Lemma reachable_separated_witness :
  separated (fst (extract_from_dtsx init (file_of "pkg" doc_overwrite))).
Proof.
  apply reachable_separated. apply reach_extract, reach_init.
Defined.

(** X4.  In every state an extractor reaches, the logic kept with a
    transformation has at most 500 characters. *)
Theorem reachable_excerpts_bounded (st : state) :
  reachable st -> excerpts_bounded st.
Proof.
  intros H. apply reachable_consistent in H. apply H.
Qed.

Lemma reachable_excerpts_bounded_witness :
  excerpts_bounded (fst (extract_from_dtsx init (file_of "pkg" doc_query))).
Proof.
  apply reachable_excerpts_bounded. apply reach_extract, reach_init.
Defined.

(** *** The ids a document adds *)

Lemma doc_asset_ids package_name root a :
  In a (doc_assets package_name root) ->
  exists n, DataAsset.id a = fmt_id package_name n.
Proof.
  unfold doc_assets. intros H. apply in_app_or in H. destruct H as [H|H].
  - apply in_flat_map in H. destruct H as [df [_ H]].
    unfold data_flow_assets in H. apply in_app_or in H.
    destruct H as [H|H]; apply in_map_iff in H;
      destruct H as [c [<- _]]; simpl; eauto.
  - apply in_flat_map in H. destruct H as [task [_ H]].
    unfold task_assets in H. destruct (statement task) as [sql|];
      [|contradiction].
    unfold sql_assets in H. destruct (_parse_sql_tables sql) as [s t].
    apply in_app_or in H.
    destruct H as [H|H]; apply in_map_iff in H;
      destruct H as [c [<- _]]; simpl; eauto.
Qed.

Lemma doc_trans_ids package_name root a k :
  In k (map fst (doc_trans package_name root a)) ->
  exists n, k = fmt_id package_name n.
Proof.
  intros H. apply in_map_iff in H. destruct H as [e [<- H]].
  apply doc_trans_in in H.
  destruct H as [[pre [post [df [_ ->]]]]|[task [sql ->]]]; simpl; eauto.
Qed.

(** X5.  A call to [extract_from_dtsx] adds only ids that begin with the
    stem of the path and an underscore: a key of either mapping after the
    call was a key before it, or is [f"{package_name}_{name}"] for some
    name. *)
Theorem new_ids_carry_package_name (st : state) (p : dtsx) (k : string) :
  let st' := fst (extract_from_dtsx st p) in
  (In k (keys (assets st')) ->
   In k (keys (assets st)) \/ exists n, k = fmt_id (stem p) n)
  /\ (In k (keys (transformations st')) ->
      In k (keys (transformations st)) \/ exists n, k = fmt_id (stem p) n).
Proof.
  destruct p as [path package_name [| |root]]; cbv zeta;
    try (rewrite extract_no_document by (simpl; discriminate); simpl;
         now auto).
  rewrite extract_document. cbv zeta. cbn [fst assets transformations stem].
  split; intros H.
  - rewrite register_all_set_all in H. apply keys_set_all_inv in H.
    destruct H as [H|H]; auto. right.
    apply in_map_iff in H. destruct H as [[k' a] [<- H]].
    unfold entries in H. apply in_map_iff in H.
    destruct H as [a' [[= <- <-] H]]. now apply doc_asset_ids in H.
  - apply keys_set_all_inv in H. destruct H as [H|H]; auto. right.
    now apply doc_trans_ids in H.
Qed.

Lemma new_ids_carry_package_name_witness :
  In "pkg_Source"
     (keys (assets (fst (extract_from_dtsx init (file_of "pkg" doc_load)))))
  /\ (In "pkg_Source" (keys (assets init))
      \/ exists n, "pkg_Source" = fmt_id "pkg" n).
Proof.
  assert (H : In "pkg_Source"
                (keys (assets (fst (extract_from_dtsx init
                                      (file_of "pkg" doc_load))))))
    by (simpl; auto).
  split; [exact H|].
  exact (proj1 (new_ids_carry_package_name init (file_of "pkg" doc_load)
                  "pkg_Source") H).
Defined.

(** *** What a document registers *)

Lemma flow_trans_covers package_name dfs df : forall a,
  In df dfs ->
  In (fmt_id package_name (get_default df (DTS "ObjectName") "Unknown"))
     (map fst (flow_trans package_name dfs a)).
Proof.
  induction dfs as [|d dfs IH]; intros a H; simpl in *; [contradiction|].
  destruct H as [->|H]; auto.
Qed.

Lemma entries_ids l : map fst (entries l) = map DataAsset.id l.
Proof. unfold entries. rewrite map_map. reflexivity. Qed.

(** X6.  After a document has been extracted, every data flow and every
    query task with a statement has its id among the transformations,
    and every source and destination component of a data flow and every
    table that [_parse_sql_tables] finds in a statement has its id among
    the assets. *)
Theorem document_entities_registered
    (st : state) (path package_name : string) (root : Element) :
  let st' :=
    fst (extract_from_dtsx st (mkDtsx path package_name (Document root))) in
  (forall df, In df (data_flows root) ->
     In (fmt_id package_name (get_default df (DTS "ObjectName") "Unknown"))
        (keys (transformations st'))
     /\ (forall c, In c (oledb_sources df) ->
           In (fmt_id package_name (get_default c "name" "Unknown Source"))
              (keys (assets st')))
     /\ (forall c, In c (oledb_destinations df) ->
           In (fmt_id package_name
                      (get_default c "name" "Unknown Destination"))
              (keys (assets st'))))
  /\ (forall task sql,
        In task (sql_tasks root) ->
        _extract_sql_statement task = Some sql -> sql <> "" ->
        In (fmt_id package_name (task_name task)) (keys (transformations st'))
        /\ (forall t,
              In t (fst (_parse_sql_tables sql))
              \/ In t (snd (_parse_sql_tables sql)) ->
              In (fmt_id package_name t) (keys (assets st')))).
Proof.
  rewrite extract_document. cbv zeta. cbn [fst assets transformations].
  rewrite register_all_set_all.
  assert (Hasset : forall a,
            In a (doc_assets package_name root) ->
            In (DataAsset.id a)
               (keys (set_all (entries (doc_assets package_name root))
                              (assets st)))).
  { intros a Ha. apply keys_written. rewrite entries_ids.
    now apply in_map. }
  split.
  - intros df Hdf. repeat split.
    + apply keys_written. unfold doc_trans. rewrite map_app.
      apply in_or_app. left. now apply flow_trans_covers.
    + intros c Hc.
      apply (Hasset (component_asset package_name "Unknown Source"
                                     "source_table" c)).
      unfold doc_assets. apply in_or_app. left.
      apply in_flat_map. exists df. split; auto.
      unfold data_flow_assets. apply in_or_app. left. now apply in_map.
    + intros c Hc.
      apply (Hasset (component_asset package_name "Unknown Destination"
                                     "target_table" c)).
      unfold doc_assets. apply in_or_app. left.
      apply in_flat_map. exists df. split; auto.
      unfold data_flow_assets. apply in_or_app. right. now apply in_map.
  - intros task sql Htask Hsql Hne.
    assert (Hst : statement task = Some sql).
    { unfold statement. rewrite Hsql. destruct sql; congruence. }
    split.
    + apply keys_written. unfold doc_trans. rewrite map_app.
      apply in_or_app. right. apply in_map_iff.
      exists (task_transformation package_name task sql). split; auto.
      apply in_flat_map. exists task. split; auto.
      unfold task_trans. rewrite Hst. now left.
    + intros t Ht.
      assert (Hin : exists a,
                 In a (sql_assets package_name sql)
                 /\ DataAsset.id a = fmt_id package_name t).
      { unfold sql_assets. destruct (_parse_sql_tables sql) as [ss ts].
        simpl in Ht. destruct Ht as [Ht|Ht].
        - exists (DataAsset.mk (fmt_id package_name t) t "source_table"
                               None None None).
          split; auto. apply in_or_app. left.
          apply (in_map (fun table =>
                   DataAsset.mk (fmt_id package_name table) table
                                "source_table" None None None)). exact Ht.
        - exists (DataAsset.mk (fmt_id package_name t) t "target_table"
                               None None None).
          split; auto. apply in_or_app. right.
          apply (in_map (fun table =>
                   DataAsset.mk (fmt_id package_name table) table
                                "target_table" None None None)). exact Ht. }
      destruct Hin as [a [Ha <-]]. apply Hasset.
      unfold doc_assets. apply in_or_app. right.
      apply in_flat_map. exists task. split; auto.
      unfold task_assets. now rewrite Hst.
Qed.

Lemma document_entities_registered_witness :
  let st' :=
    fst (extract_from_dtsx init (file_of "pkg" doc_flow_and_query)) in
  In "pkg_Refresh" (keys (transformations st'))
  /\ In "pkg_STGCUSTOMER" (keys (assets st')).
Proof.
  intros st'.
  destruct (proj2 (document_entities_registered init "pkg.dtsx" "pkg"
                     doc_flow_and_query)
              (sql_task "Refresh" "SQLStatement"
                 "INSERT INTO DimCustomer SELECT * FROM StgCustomer")
              "INSERT INTO DimCustomer SELECT * FROM StgCustomer")
    as [Ht Ha].
  - simpl. auto.
  - reflexivity.
  - discriminate.
  - split; [exact Ht|]. apply (Ha "STGCUSTOMER"). left. simpl. auto.
Defined.

(** *** The loop of [main] *)

Lemma step_invariant a p :
  Batch.all_assets a = assets (Batch.extractor a) ->
  Batch.all_transformations a = transformations (Batch.extractor a) ->
  consistent (Batch.extractor a) ->
  let a' := Batch.step a p in
  Batch.all_assets a' = assets (Batch.extractor a')
  /\ Batch.all_transformations a' = transformations (Batch.extractor a')
  /\ consistent (Batch.extractor a').
Proof.
  intros Ha Ht Hc. unfold Batch.step.
  destruct (Batch.exists_ p); [|now auto].
  destruct p as [path package_name [| |root]];
    try (rewrite extract_no_document by (simpl; discriminate); simpl;
         rewrite ?update_empty; now auto).
  pose proof (consistent_extract (Batch.extractor a)
                (mkDtsx path package_name (Document root)) Hc) as Hc'.
  rewrite extract_document in *. cbv zeta in *.
  cbn [fst assets transformations Batch.extractor Batch.all_assets
       Batch.all_transformations] in *.
  split; [|split]; [| |exact Hc'].
  - destruct Hc' as [[Hnd _] _]. cbn [assets] in Hnd.
    rewrite Ha. rewrite register_all_set_all in *.
    destruct (keys_set_all (entries (doc_assets package_name root))
                (assets (Batch.extractor a))) as [new Hnew].
    eapply update_with_extension; eauto.
  - destruct Hc' as [_ [[Hnd _] _]]. cbn [transformations] in Hnd.
    rewrite Ht.
    destruct (keys_set_all
                (doc_trans package_name root (assets (Batch.extractor a)))
                (transformations (Batch.extractor a))) as [new Hnew].
    eapply update_with_extension; eauto.
Qed.

Lemma run_invariant ps : forall a,
  Batch.all_assets a = assets (Batch.extractor a) ->
  Batch.all_transformations a = transformations (Batch.extractor a) ->
  consistent (Batch.extractor a) ->
  let a' := fold_left Batch.step ps a in
  Batch.all_assets a' = assets (Batch.extractor a')
  /\ Batch.all_transformations a' = transformations (Batch.extractor a')
  /\ consistent (Batch.extractor a').
Proof.
  induction ps as [|p ps IH]; intros a Ha Ht Hc; simpl; auto.
  destruct (step_invariant a p Ha Ht Hc) as [Ha' [Ht' Hc']].
  now apply IH.
Qed.

(** X7.  Whatever the packages, after the loop of [main] the two
    mappings it has accumulated with [update] are the two mappings of
    the extractor itself, also when some packages were missing or not
    well formed. *)
Theorem main_accumulates_the_extractor_state (ssis_packages : list dtsx) :
  let a := Batch.run ssis_packages in
  Batch.all_assets a = assets (Batch.extractor a)
  /\ Batch.all_transformations a = transformations (Batch.extractor a).
Proof.
  destruct (run_invariant ssis_packages Batch.start eq_refl eq_refl
              consistent_init) as [Ha [Ht _]].
  split; assumption.
Qed.

End ExtractionProperties.

(* ================================================================= *)
(** ** The store that is built and what the query returns *)

Module StoreProperties.
Import PyDict Extractor Store StoreShape Edges Fixtures.
Import StoreClaims.

Lemma nodes_fold_create_rels (f : graph -> string -> graph) l :
  (forall g x, nodes (f g x) = nodes g) ->
  forall g, nodes (fold_left f l g) = nodes g.
Proof.
  intros Hf. induction l as [|x l IH]; intros g; simpl; auto.
  now rewrite IH, Hf.
Qed.

Lemma nodes_add_transformation g t :
  nodes (add_transformation g t) = nodes g ++ [transformation_node t].
Proof.
  unfold add_transformation.
  rewrite !nodes_fold_create_rels by reflexivity. reflexivity.
Qed.

Lemma nodes_fold_add ts : forall g,
  nodes (fold_left add_transformation ts g)
  = nodes g ++ map transformation_node ts.
Proof.
  induction ts as [|t ts IH]; intros g; simpl.
  - now rewrite app_nil_r.
  - now rewrite IH, nodes_add_transformation, <- app_assoc.
Qed.

Lemma nodes_fold_assets l : forall g,
  nodes (fold_left (fun g a => create_node (asset_node a) g) l g)
  = nodes g ++ map asset_node l.
Proof.
  induction l as [|a l IH]; intros g; simpl.
  - now rewrite app_nil_r.
  - rewrite IH. simpl. now rewrite <- app_assoc.
Qed.

(** X8.  The store holds one node per entity and nothing else: the asset
    nodes in the order of the asset mapping, then the transformation
    nodes in the order of the transformation mapping. *)
Theorem built_store_nodes
    (assets : dict DataAsset.t) (transformations : dict DataTransformation.t) :
  nodes (create_lineage_graph assets transformations)
  = map asset_node (values assets)
    ++ map transformation_node (values transformations).
Proof.
  unfold create_lineage_graph.
  now rewrite nodes_fold_add, nodes_fold_assets.
Qed.

(** *** The direction of the relationships *)

Lemma directed_grows g n r : directed g r -> directed (create_node n g) r.
Proof.
  assert (Hnth : forall i t, nth_error (nodes g) i = Some t ->
                             nth_error (nodes g ++ [n]) i = Some t).
  { intros i t H. rewrite nth_error_app1; auto.
    apply nth_error_Some. congruence. }
  intros [a [t [Ha [Ht H]]]]. exists a, t. repeat split; auto.
  destruct H as [[Hty [H1 H2]]|[Hty [H1 H2]]]; [left|right]; simpl; auto.
Qed.

Lemma row_nodes la ida lb idb g a b :
  In (a, b)
     (flat_map (fun a => map (fun b => (a, b))
                             (match_nodes (by_label_id lb idb) g))
               (match_nodes (by_label_id la ida) g)) ->
  exists na nb,
    nth_error (nodes g) a = Some na /\ by_label_id la ida na = true
    /\ nth_error (nodes g) b = Some nb /\ by_label_id lb idb nb = true.
Proof.
  intros H. apply in_flat_map in H. destruct H as [a' [Ha H]].
  apply in_map_iff in H. destruct H as [b' [[= <- <-] Hb]].
  apply match_nodes_spec in Ha. apply match_nodes_spec in Hb.
  destruct Ha as [na [? ?]]. destruct Hb as [nb [? ?]]. eauto 10.
Qed.

Lemma by_label_id_label l i n : by_label_id l i n = true -> has_label l n = true.
Proof. unfold by_label_id. intros H. apply andb_true_iff in H. tauto. Qed.

Lemma by_label_id_id l i n : by_label_id l i n = true -> id n = i.
Proof.
  unfold by_label_id. intros H. apply andb_true_iff in H.
  now apply String.eqb_eq.
Qed.

Lemma directed_feeds_into g source_id tid :
  (forall r, In r (rels g) -> directed g r) ->
  forall r,
    In r (rels (create_rels "Asset" source_id "Transformation" tid
                            "FEEDS_INTO" g)) ->
    directed (create_rels "Asset" source_id "Transformation" tid
                          "FEEDS_INTO" g) r.
Proof.
  intros Hg r Hr. simpl in Hr. apply in_app_or in Hr.
  destruct Hr as [Hr|Hr]; [exact (Hg r Hr)|].
  apply in_map_iff in Hr. destruct Hr as [[a b] [<- Hab]].
  apply row_nodes in Hab. destruct Hab as [na [nb [Ha [Hla [Hb Hlb]]]]].
  exists na, nb. apply by_label_id_label in Hla, Hlb.
  repeat split; auto.
Qed.

Lemma directed_produces g tid target_id :
  (forall r, In r (rels g) -> directed g r) ->
  forall r,
    In r (rels (create_rels "Transformation" tid "Asset" target_id
                            "PRODUCES" g)) ->
    directed (create_rels "Transformation" tid "Asset" target_id
                          "PRODUCES" g) r.
Proof.
  intros Hg r Hr. simpl in Hr. apply in_app_or in Hr.
  destruct Hr as [Hr|Hr]; [exact (Hg r Hr)|].
  apply in_map_iff in Hr. destruct Hr as [[a b] [<- Hab]].
  apply row_nodes in Hab. destruct Hab as [na [nb [Ha [Hla [Hb Hlb]]]]].
  exists nb, na. apply by_label_id_label in Hla, Hlb.
  repeat split; auto.
Qed.

Lemma fold_left_directed {A : Type} (f : graph -> A -> graph) l :
  (forall g x, (forall r, In r (rels g) -> directed g r) ->
               forall r, In r (rels (f g x)) -> directed (f g x) r) ->
  forall g, (forall r, In r (rels g) -> directed g r) ->
            forall r, In r (rels (fold_left f l g)) ->
                      directed (fold_left f l g) r.
Proof.
  intros Hf. induction l as [|x l IH]; intros g Hg; simpl; auto.
Qed.

(** X9.  Whatever the two mappings, every relationship of the store is a
    [FEEDS_INTO] from an asset node to a transformation node or a
    [PRODUCES] from a transformation node to an asset node. *)
Theorem built_store_relationships_directed
    (assets : dict DataAsset.t) (transformations : dict DataTransformation.t)
    (r : rel) :
  In r (rels (create_lineage_graph assets transformations)) ->
  directed (create_lineage_graph assets transformations) r.
Proof.
  revert r. unfold create_lineage_graph. apply fold_left_directed.
  - intros g t Hg. unfold add_transformation.
    apply fold_left_directed;
      [intros; now apply directed_produces|].
    apply fold_left_directed;
      [intros; now apply directed_feeds_into|].
    intros r Hr. apply directed_grows. now apply Hg.
  - apply fold_left_directed.
    + intros g a Hg r Hr. apply directed_grows. now apply Hg.
    + intros r [].
Qed.

Lemma built_store_relationships_directed_witness :
  let '(assets, transformations) :=
    snd (extract_from_dtsx init (file_of "pkg" doc_load)) in
  directed (create_lineage_graph assets transformations)
           (mkRel 0 "FEEDS_INTO" 2).
Proof.
  apply (built_store_relationships_directed
           (fst (snd (extract_from_dtsx init (file_of "pkg" doc_load))))
           (snd (snd (extract_from_dtsx init (file_of "pkg" doc_load))))).
  vm_compute. auto.
Defined.

(** *** The rows of the query *)

Lemma built_store_rows assets transformations asset_name :
  lineage_rows (create_lineage_graph assets transformations) asset_name = [].
Proof.
  pose proof (typed_create_lineage_graph assets transformations) as [_ Hrel].
  set (g := create_lineage_graph assets transformations) in *.
  unfold lineage_rows.
  replace (match_paths g "FEEDS_INTO" max_hops is_asset
                       (is_asset_named asset_name)) with (@nil path).
  replace (match_paths g "PRODUCES" max_hops (is_asset_named asset_name)
                       is_asset) with (@nil path).
  - reflexivity.
  - symmetry. apply no_rows. intros p Hp. unfold match_paths in Hp.
    apply in_flat_map in Hp. destruct Hp as [s [Hs Hp]].
    apply match_nodes_spec in Hs. destruct Hs as [n [Hn Hlab]].
    apply in_map_iff in Hp. destruct Hp as [w [_ Hw]].
    apply filter_In in Hw. destruct Hw as [Hw _].
    apply walk_ends in Hw. destruct Hw as [[r [Hr [Hty Hsrc]]] _].
    destruct (Hrel r Hr) as [[Hty' _]|[_ [t [Hnth Hna]]]]; [congruence|].
    rewrite Hsrc, Hn in Hnth. injection Hnth as <-.
    unfold is_asset_named in Hlab. rewrite Hna in Hlab. discriminate.
  - symmetry. apply no_rows. intros p Hp. unfold match_paths in Hp.
    apply in_flat_map in Hp. destruct Hp as [s [_ Hp]].
    apply in_map_iff in Hp. destruct Hp as [w [_ Hw]].
    apply filter_In in Hw. destruct Hw as [Hw Ht].
    apply walk_ends in Hw. destruct Hw as [_ [r [Hr [Hty Hdst]]]].
    rewrite <- Hdst in Ht.
    destruct (Hrel r Hr) as [[_ [t [Hnth Hna]]]|[Hty' _]]; [|congruence].
    rewrite Hnth in Ht. unfold is_asset_named in Ht. rewrite Hna in Ht.
    discriminate.
Qed.

(** X10.  Whatever the packages hold, [main] prints a lineage for
    [DimCustomer] that has no path. *)
Theorem main_prints_no_path (ssis_packages : list dtsx) :
  Program.main ssis_packages = ("DimCustomer", []).
Proof.
  unfold Program.main, get_lineage_for_asset.
  now rewrite built_store_rows.
Qed.

(** *** What a returned path looks like *)

Lemma numbered_nth g i r :
  In (i, r) (numbered_rels g) -> nth_error (rels g) i = Some r.
Proof.
  unfold numbered_rels. intros H. apply combine_seq_nth in H.
  destruct H as [_ H]. now rewrite Nat.sub_0_r in H.
Qed.

(** A walk ends with a relationship of the store, at its end. *)
Lemma walk_last g ty n :
  forall v used w, In w (walks g ty n v used) ->
  exists front i r,
    fst w = front ++ [i] /\ nth_error (rels g) i = Some r /\ dst r = snd w.
Proof.
  induction n as [|n IH]; intros v used w Hin; simpl in Hin; [contradiction|].
  apply in_flat_map in Hin. destruct Hin as [[i r] [Hir Hin]].
  apply numbered_nth in Hir.
  destruct ((src r =? v) && String.eqb (rtype r) ty && negb (mem_nat i used));
    [|contradiction].
  destruct Hin as [<-|Hin].
  - exists [], i, r. auto.
  - apply in_map_iff in Hin. destruct Hin as [w' [<- Hw']].
    apply IH in Hw'. destruct Hw' as [front [j [r' [Hf [Hj Hd]]]]].
    exists (i :: front), j, r'. simpl. rewrite Hf. auto.
Qed.

Lemma is_asset_entry n : has_label "Asset" n = true ->
  In "Asset" (entry_type (entry_of n)).
Proof.
  unfold has_label. intros H. apply existsb_exists in H.
  destruct H as [l [Hl E]]. apply String.eqb_eq in E. now subst.
Qed.

Lemma path_shape g s w n t :
  nth_error (nodes g) s = Some n ->
  (exists front i r,
      fst w = front ++ [i] /\ nth_error (rels g) i = Some r
      /\ dst r = snd w) ->
  nth_error (nodes g) (snd w) = Some t ->
  exists middle, path_nodes g (s, fst w) = n :: middle ++ [t].
Proof.
  intros Hn [front [i [r [Hf [Hi Hd]]]]] Ht.
  unfold path_nodes. cbn [fst snd]. rewrite Hn, Hf, flat_map_app.
  cbn [flat_map]. rewrite Hi, Hd, Ht. rewrite app_nil_r.
  eexists. reflexivity.
Qed.

(** X11.  On every store, each path that [get_lineage_for_asset] returns
    has at least two entries, begins and ends with an entry labelled
    [Asset], and one of these two entries carries the name asked for. *)
Theorem lineage_paths_join_assets
    (g : graph) (asset_name : string) (path_data : list entry) :
  In path_data (snd (get_lineage_for_asset g asset_name)) ->
  exists first middle last,
    path_data = first :: middle ++ [last]
    /\ In "Asset" (entry_type first) /\ In "Asset" (entry_type last)
    /\ (entry_name first = asset_name \/ entry_name last = asset_name).
Proof.
  unfold get_lineage_for_asset. cbn [snd]. intros Hin.
  apply in_map_iff in Hin. destruct Hin as [p [<- Hp]].
  apply distinct_incl in Hp. unfold lineage_rows in Hp.
  assert (Hshape : exists s w n t is_source is_target,
             p = (s, fst w)
             /\ nth_error (nodes g) s = Some n /\ is_source n = true
             /\ nth_error (nodes g) (snd w) = Some t /\ is_target t = true
             /\ (exists front i r,
                    fst w = front ++ [i] /\ nth_error (rels g) i = Some r
                    /\ dst r = snd w)
             /\ ((is_source = is_asset
                  /\ is_target = is_asset_named asset_name)
                 \/ (is_source = is_asset_named asset_name
                     /\ is_target = is_asset))).
  { assert (Hone : forall ty is_source is_target,
               In p (match_paths g ty max_hops is_source is_target) ->
               exists s w n t,
                 p = (s, fst w)
                 /\ nth_error (nodes g) s = Some n /\ is_source n = true
                 /\ nth_error (nodes g) (snd w) = Some t
                 /\ is_target t = true
                 /\ (exists front i r,
                        fst w = front ++ [i]
                        /\ nth_error (rels g) i = Some r /\ dst r = snd w)).
    { intros ty is_source is_target H. unfold match_paths in H.
      apply in_flat_map in H. destruct H as [s [Hs H]].
      apply match_nodes_spec in Hs. destruct Hs as [n [Hn Hsrc]].
      apply in_map_iff in H. destruct H as [w [<- Hw]].
      apply filter_In in Hw. destruct Hw as [Hw Ht].
      destruct (nth_error (nodes g) (snd w)) as [t|] eqn:Et; [|discriminate].
      apply walk_last in Hw. exists s, w, n, t. auto 10. }
    apply in_app_or in Hp. destruct Hp as [Hp|Hp]; apply Hone in Hp;
      destruct Hp as [s [w [n [t H]]]].
    - exists s, w, n, t, is_asset, (is_asset_named asset_name). tauto.
    - exists s, w, n, t, (is_asset_named asset_name), is_asset. tauto. }
  destruct Hshape
    as [s [w [n [t [is_source [is_target
         [-> [Hn [Hsrc [Ht [Htgt [Hlast Hwhich]]]]]]]]]]]].
  destruct (path_shape g s w n t Hn Hlast Ht) as [middle Hpath].
  rewrite Hpath. cbn [map]. rewrite map_app. cbn [map].
  exists (entry_of n), (map entry_of middle), (entry_of t).
  split; [reflexivity|].
  assert (Hnamed : forall x, is_asset_named asset_name x = true ->
                             has_label "Asset" x = true
                             /\ name x = asset_name).
  { intros x H. unfold is_asset_named in H. apply andb_true_iff in H.
    destruct H as [H E]. apply String.eqb_eq in E. auto. }
  destruct Hwhich as [[-> ->]|[-> ->]].
  - apply Hnamed in Htgt. destruct Htgt as [Hl Hnm].
    repeat split; auto using is_asset_entry.
  - apply Hnamed in Hsrc. destruct Hsrc as [Hl Hnm].
    repeat split; auto using is_asset_entry.
Qed.

Lemma lineage_paths_join_assets_witness :
  exists first middle last,
    [mkEntry "b" "B" ["Asset"]; mkEntry "a" "A" ["Asset"]]
    = first :: middle ++ [last]
    /\ In "Asset" (entry_type first) /\ In "Asset" (entry_type last)
    /\ (entry_name first = "A" \/ entry_name last = "A").
Proof.
  apply (lineage_paths_join_assets cyclic "A").
  vm_compute. auto.
Defined.

(** X12.  When no asset node of the store carries the name asked for,
    [get_lineage_for_asset] returns no path. *)
Theorem lineage_of_unknown_asset (g : graph) (asset_name : string) :
  (forall n, In n (nodes g) -> is_asset_named asset_name n = false) ->
  get_lineage_for_asset g asset_name = (asset_name, []).
Proof.
  intros Hnone. unfold get_lineage_for_asset, lineage_rows.
  replace (match_paths g "FEEDS_INTO" max_hops is_asset
                       (is_asset_named asset_name)) with (@nil path).
  replace (match_paths g "PRODUCES" max_hops (is_asset_named asset_name)
                       is_asset) with (@nil path).
  - reflexivity.
  - symmetry. apply no_rows. intros p Hp. unfold match_paths in Hp.
    apply in_flat_map in Hp. destruct Hp as [s [Hs _]].
    apply match_nodes_spec in Hs. destruct Hs as [n [Hn Hlab]].
    apply nth_error_In in Hn. rewrite (Hnone n Hn) in Hlab. discriminate.
  - symmetry. apply no_rows. intros p Hp. unfold match_paths in Hp.
    apply in_flat_map in Hp. destruct Hp as [s [_ Hp]].
    apply in_map_iff in Hp. destruct Hp as [w [_ Hw]].
    apply filter_In in Hw. destruct Hw as [_ Ht].
    destruct (nth_error (nodes g) (snd w)) as [t|] eqn:Et; [|discriminate].
    apply nth_error_In in Et. rewrite (Hnone t Et) in Ht. discriminate.
Qed.

Lemma lineage_of_unknown_asset_witness :
  get_lineage_for_asset cyclic "C" = ("C", []).
Proof.
  apply lineage_of_unknown_asset.
  intros n [<-|[<-|[]]]; reflexivity.
Defined.

End StoreProperties.

(* ================================================================= *)
(** ** The relationships of the store that is built *)

Module EdgeProperties.
Import PyDict Extractor Store StoreShape Edges Reach Fixtures.
Import StoreClaims StoreProperties ReachFacts.

Lemma flat_map_same {A B : Type} (f h : A -> list B) l :
  (forall x, In x l -> f x = h x) -> flat_map f l = flat_map h l.
Proof.
  induction l as [|x l IH]; intros H; simpl; auto.
  rewrite (H x (or_introl eq_refl)). f_equal.
  apply IH. intros y Hy. apply H. now right.
Qed.

Lemma flat_map_one {A B : Type} (f : A -> list B) (c : B) l :
  (forall x, In x l -> f x = [c]) ->
  flat_map f l = repeat c (List.length l).
Proof.
  induction l as [|x l IH]; intros H; simpl; auto.
  rewrite (H x (or_introl eq_refl)). simpl. f_equal.
  apply IH. intros y Hy. apply H. now right.
Qed.

Lemma rows_length {A B : Type} (l1 : list A) (l2 : list B) :
  List.length (flat_map (fun a => map (fun b => (a, b)) l2) l1)
  = List.length l1 * List.length l2.
Proof.
  induction l1 as [|a l1 IH]; simpl; auto.
  now rewrite length_app, length_map, IH.
Qed.

Lemma match_nodes_count p g :
  List.length (match_nodes p g) = List.length (filter p (nodes g)).
Proof.
  unfold match_nodes. rewrite length_map.
  generalize 0. induction (nodes g) as [|n l IH]; intros s; simpl; auto.
  destruct (p n); simpl; now rewrite IH.
Qed.

Lemma closed_create_node g n : closed g -> closed (create_node n g).
Proof.
  intros H r Hr. simpl in *. rewrite length_app. simpl.
  destruct (H r Hr). lia.
Qed.

Lemma closed_create_rels la ida lb idb ty g :
  closed g -> closed (create_rels la ida lb idb ty g).
Proof.
  intros H r Hr. simpl in *. apply in_app_or in Hr.
  destruct Hr as [Hr|Hr]; [now apply H|].
  apply in_map_iff in Hr. destruct Hr as [[a b] [<- Hab]].
  apply row_nodes in Hab. destruct Hab as [na [nb [Ha [_ [Hb _]]]]].
  simpl. split; apply nth_error_Some; congruence.
Qed.

Lemma graph_edges_create_node g n :
  closed g -> graph_edges (create_node n g) = graph_edges g.
Proof.
  intros H. unfold graph_edges. simpl. apply flat_map_same.
  intros r Hr. destruct (H r Hr) as [Hs Hd].
  unfold Views.edge_of. simpl. now rewrite !nth_error_app1.
Qed.

Lemma graph_edges_create_rels la ida lb idb ty g :
  graph_edges (create_rels la ida lb idb ty g)
  = graph_edges g
    ++ repeat (ida, ty, idb)
              (List.length (filter (by_label_id la ida) (nodes g))
               * List.length (filter (by_label_id lb idb) (nodes g))).
Proof.
  unfold graph_edges. simpl. rewrite flat_map_app. f_equal.
  rewrite <- !match_nodes_count, <- rows_length.
  rewrite flat_map_concat_map, map_map, <- flat_map_concat_map.
  apply flat_map_one. intros [a b] Hab.
  apply row_nodes in Hab. destruct Hab as [na [nb [Ha [Hla [Hb Hlb]]]]].
  unfold Views.edge_of. simpl. rewrite Ha, Hb.
  apply by_label_id_id in Hla, Hlb. now subst.
Qed.

(** *** Counting the nodes that match *)

Lemma count_by_id {A : Type} (f : A -> string) (x : string) (l : list A) :
  NoDup (map f l) ->
  List.length (filter (fun a => String.eqb (f a) x) l)
  = if registered (map f l) x then 1 else 0.
Proof.
  unfold registered. induction l as [|a l IH]; intros Hnd; simpl; auto.
  inversion Hnd as [|? ? Hnot Hnd']; subst.
  rewrite (String.eqb_sym x (f a)).
  destruct (String.eqb (f a) x) eqn:E; simpl.
  - apply String.eqb_eq in E. subst x. f_equal.
    rewrite IH by exact Hnd'.
    destruct (existsb (String.eqb (f a)) (map f l)) eqn:Ex; auto.
    apply existsb_exists in Ex. destruct Ex as [y [Hy Ey]].
    apply String.eqb_eq in Ey. subst y. tauto.
  - now apply IH.
Qed.

Lemma asset_nodes_matching x l :
  filter (by_label_id "Asset" x) (map asset_node l)
  = map asset_node (filter (fun a => String.eqb (DataAsset.id a) x) l).
Proof.
  induction l as [|a l IH]; simpl; auto.
  unfold by_label_id at 1. simpl.
  destruct (String.eqb (DataAsset.id a) x); simpl; now rewrite IH.
Qed.

Lemma transformation_nodes_matching x l :
  filter (by_label_id "Transformation" x) (map transformation_node l)
  = map transformation_node
        (filter (fun t => String.eqb (DataTransformation.id t) x) l).
Proof.
  induction l as [|a l IH]; simpl; auto.
  unfold by_label_id at 1. simpl.
  destruct (String.eqb (DataTransformation.id a) x); simpl; now rewrite IH.
Qed.

Lemma asset_nodes_not_transformations x l :
  filter (by_label_id "Transformation" x) (map asset_node l) = [].
Proof. induction l as [|a l IH]; simpl; auto. Qed.

Lemma transformation_nodes_not_assets x l :
  filter (by_label_id "Asset" x) (map transformation_node l) = [].
Proof. induction l as [|a l IH]; simpl; auto. Qed.

Section Build.

Variable A : list DataAsset.t.
Hypothesis A_distinct : NoDup (map DataAsset.id A).

Let ids : list string := map DataAsset.id A.

Lemma assets_matching done x :
  List.length
    (filter (by_label_id "Asset" x)
            (map asset_node A ++ map transformation_node done))
  = if registered ids x then 1 else 0.
Proof.
  rewrite filter_app, transformation_nodes_not_assets, app_nil_r.
  rewrite asset_nodes_matching, length_map.
  now apply count_by_id.
Qed.

Lemma transformations_matching done t :
  NoDup (map DataTransformation.id (done ++ [t])) ->
  List.length
    (filter (by_label_id "Transformation" (DataTransformation.id t))
            (map asset_node A ++ map transformation_node (done ++ [t])))
  = 1.
Proof.
  intros Hnd.
  rewrite filter_app, asset_nodes_not_transformations. cbn [app].
  rewrite transformation_nodes_matching, length_map.
  rewrite (count_by_id DataTransformation.id) by exact Hnd.
  unfold registered. rewrite map_app, existsb_app. simpl.
  now rewrite String.eqb_refl, orb_true_r.
Qed.

Lemma repeat_if {B : Type} (c : B) (b : bool) :
  repeat c ((if b then 1 else 0) * 1) = if b then [c] else [].
Proof. now destruct b. Qed.

Lemma feeds_fold done t sources : forall g,
  nodes g = map asset_node A ++ map transformation_node (done ++ [t]) ->
  NoDup (map DataTransformation.id (done ++ [t])) ->
  let g' :=
    fold_left (fun g source_id =>
                 create_rels "Asset" source_id "Transformation"
                             (DataTransformation.id t) "FEEDS_INTO" g)
              sources g in
  graph_edges g'
  = graph_edges g
    ++ map (fun s => (s, "FEEDS_INTO", DataTransformation.id t))
           (filter (registered ids) sources).
Proof.
  induction sources as [|s sources IH]; intros g Hn Hnd; simpl.
  - now rewrite app_nil_r.
  - rewrite IH by auto. rewrite graph_edges_create_rels, Hn.
    rewrite assets_matching, transformations_matching by exact Hnd.
    rewrite repeat_if, <- app_assoc. f_equal.
    now destruct (registered ids s).
Qed.

Lemma repeat_if' {B : Type} (c : B) (b : bool) :
  repeat c (1 * (if b then 1 else 0)) = if b then [c] else [].
Proof. now destruct b. Qed.

Lemma produces_fold done t targets : forall g,
  nodes g = map asset_node A ++ map transformation_node (done ++ [t]) ->
  NoDup (map DataTransformation.id (done ++ [t])) ->
  let g' :=
    fold_left (fun g target_id =>
                 create_rels "Transformation" (DataTransformation.id t)
                             "Asset" target_id "PRODUCES" g)
              targets g in
  graph_edges g'
  = graph_edges g
    ++ map (fun x => (DataTransformation.id t, "PRODUCES", x))
           (filter (registered ids) targets).
Proof.
  induction targets as [|x targets IH]; intros g Hn Hnd; simpl.
  - now rewrite app_nil_r.
  - rewrite IH by auto. rewrite graph_edges_create_rels, Hn.
    rewrite assets_matching, transformations_matching by exact Hnd.
    rewrite repeat_if', <- app_assoc. f_equal.
    now destruct (registered ids x).
Qed.

Lemma closed_fold (f : graph -> string -> graph) l :
  (forall g x, closed g -> closed (f g x)) ->
  forall g, closed g -> closed (fold_left f l g).
Proof.
  intros Hf. induction l as [|x l IH]; intros g Hg; simpl; auto.
Qed.

Lemma add_transformation_edges done t g :
  nodes g = map asset_node A ++ map transformation_node done ->
  closed g ->
  NoDup (map DataTransformation.id (done ++ [t])) ->
  graph_edges (add_transformation g t) = graph_edges g ++ edges_for ids t
  /\ closed (add_transformation g t).
Proof.
  intros Hn Hc Hnd. split.
  - unfold add_transformation, edges_for.
    assert (Hn1 : nodes (create_node (transformation_node t) g)
                  = map asset_node A
                    ++ map transformation_node (done ++ [t])).
    { simpl. rewrite Hn, map_app, <- app_assoc. reflexivity. }
    rewrite (produces_fold done t); auto.
    + rewrite (feeds_fold done t); auto.
      rewrite graph_edges_create_node by exact Hc.
      now rewrite <- app_assoc.
    + now rewrite nodes_fold_create_rels.
  - unfold add_transformation.
    apply closed_fold; [intros; now apply closed_create_rels|].
    apply closed_fold; [intros; now apply closed_create_rels|].
    now apply closed_create_node.
Qed.

Lemma fold_add_edges todo : forall done g,
  nodes g = map asset_node A ++ map transformation_node done ->
  closed g ->
  NoDup (map DataTransformation.id (done ++ todo)) ->
  graph_edges (fold_left add_transformation todo g)
  = graph_edges g ++ flat_map (edges_for ids) todo.
Proof.
  induction todo as [|t todo IH]; intros done g Hn Hc Hnd; simpl.
  - now rewrite app_nil_r.
  - assert (Hnd1 : NoDup (map DataTransformation.id (done ++ [t]))).
    { replace (done ++ t :: todo) with ((done ++ [t]) ++ todo) in Hnd
        by now rewrite <- app_assoc.
      rewrite map_app in Hnd. now apply NoDup_app_remove_r in Hnd. }
    destruct (add_transformation_edges done t g Hn Hc Hnd1) as [He Hc'].
    rewrite (IH (done ++ [t])); auto.
    + now rewrite He, <- app_assoc.
    + rewrite nodes_add_transformation, Hn, map_app, <- app_assoc.
      reflexivity.
    + now rewrite <- app_assoc.
Qed.

End Build.

Lemma rels_fold_assets l : forall g,
  rels (fold_left (fun g a => create_node (asset_node a) g) l g) = rels g.
Proof.
  induction l as [|a l IH]; intros g; simpl; auto. now rewrite IH.
Qed.

Lemma built_store_edges_lists (A : list DataAsset.t)
    (T : list DataTransformation.t) assets transformations :
  values assets = A -> values transformations = T ->
  NoDup (map DataAsset.id A) -> NoDup (map DataTransformation.id T) ->
  Views.edges assets transformations
  = flat_map (edges_for (map DataAsset.id A)) T.
Proof.
  intros HA HT HndA HndT.
  change (Views.edges assets transformations)
    with (graph_edges (create_lineage_graph assets transformations)).
  unfold create_lineage_graph. rewrite HA, HT.
  set (g0 := fold_left (fun g a => create_node (asset_node a) g) A cleared).
  assert (Hn0 : nodes g0 = map asset_node A ++ map transformation_node [])
    by (unfold g0; rewrite nodes_fold_assets; simpl; now rewrite app_nil_r).
  assert (Hr0 : rels g0 = [])
    by (unfold g0; now rewrite rels_fold_assets).
  rewrite (fold_add_edges A HndA T [] g0 Hn0); auto.
  - unfold graph_edges. now rewrite Hr0.
  - intros r Hr. rewrite Hr0 in Hr. contradiction.
Qed.

(** X13.  When the assets have distinct ids and the transformations have
    distinct ids, the edges of the store are, transformation by
    transformation, one [FEEDS_INTO] edge per listed source id and one
    [PRODUCES] edge per listed target id that is the id of an asset; an
    id that is not registered gives no edge. *)
Theorem built_store_edges
    (assets : dict DataAsset.t) (transformations : dict DataTransformation.t) :
  NoDup (map DataAsset.id (values assets)) ->
  NoDup (map DataTransformation.id (values transformations)) ->
  Views.edges assets transformations
  = flat_map (edges_for (map DataAsset.id (values assets)))
             (values transformations).
Proof.
  intros Ha Ht. now apply built_store_edges_lists.
Qed.

Lemma built_store_edges_witness :
  let assets :=
    [("a", DataAsset.mk "a" "A" "source_table" None None None)] in
  let transformations :=
    [("t", DataTransformation.mk "t" "T" "ssis_dataflow"
             (Some ["a"; "gone"]) (Some ["lost"; "a"]) None)] in
  Views.edges assets transformations
  = [("a", "FEEDS_INTO", "t"); ("t", "PRODUCES", "a")].
Proof.
  intros assets transformations.
  rewrite (built_store_edges assets transformations).
  - reflexivity.
  - repeat constructor; simpl; tauto.
  - repeat constructor; simpl; tauto.
Defined.

Lemma values_ids {V : Type} (id_of : V -> string) (d : dict V) :
  well_keyed id_of d -> map id_of (values d) = keys d.
Proof.
  intros [_ Hid]. induction d as [|[k v] d IH]; simpl; auto.
  rewrite (Hid k v) by (simpl; auto). f_equal.
  apply IH. intros k' v' H. apply Hid. simpl. auto.
Qed.

Lemma filter_all {A : Type} (f : A -> bool) l :
  (forall x, In x l -> f x = true) -> filter f l = l.
Proof.
  induction l as [|x l IH]; intros H; simpl; auto.
  rewrite (H x (or_introl eq_refl)). f_equal.
  apply IH. intros y Hy. apply H. now right.
Qed.

(** X14.  In every state an extractor reaches, the store built from the
    two mappings has exactly the edges the transformations list: one
    [FEEDS_INTO] edge for each entry of [source_assets] and one
    [PRODUCES] edge for each entry of [target_assets], in the order of
    the transformations. *)
Theorem reachable_edges (st : state) :
  reachable st ->
  Views.edges_of_state st
  = flat_map listed_edges (values (transformations st)).
Proof.
  intros H. apply reachable_consistent in H.
  destruct H as [Ha [Ht [Href _]]].
  unfold Views.edges_of_state.
  rewrite (built_store_edges_lists (values (assets st))
             (values (transformations st))); auto.
  - apply flat_map_same. intros t Hin.
    unfold values in Hin. apply in_map_iff in Hin.
    destruct Hin as [[k t'] [Et Hin]]. simpl in Et. subst t'.
    assert (Hreg : forall x,
               In x (each (DataTransformation.source_assets t))
               \/ In x (each (DataTransformation.target_assets t)) ->
               registered (map DataAsset.id (values (assets st))) x = true).
    { intros x Hx. rewrite (values_ids _ _ Ha). unfold registered.
      apply existsb_exists. exists x. split; [|apply String.eqb_refl].
      eapply Href; eauto. }
    unfold edges_for, listed_edges.
    rewrite !filter_all; auto.
  - rewrite (values_ids _ _ Ha). apply Ha.
  - rewrite (values_ids _ _ Ht). apply Ht.
Qed.

Lemma reachable_edges_witness :
  Views.edges_of_state
    (fst (extract_from_dtsx init (file_of "pkg" doc_load)))
  = [("pkg_Source", "FEEDS_INTO", "pkg_LoadCustomers");
     ("pkg_LoadCustomers", "PRODUCES", "pkg_Destination")].
Proof.
  rewrite (reachable_edges
             (fst (extract_from_dtsx init (file_of "pkg" doc_load)))).
  - reflexivity.
  - apply reach_extract, reach_init.
Defined.

End EdgeProperties.

(* ================================================================= *)
(** ** More on the resolver *)

Module ResolverProperties.
Import Text Regex Extractor Clauses Shape Statements.
Import RegexFacts ShapeFacts PySetFacts ResolverClaims.

(** *** Upper case *)

Lemma upper_char_idem c : upper_char (upper_char c) = upper_char c.
Proof. destruct c as [[] [] [] [] [] [] [] []]; reflexivity. Qed.

Lemma upper_char_not_lower c : is_lower (upper_char c) = false.
Proof. destruct c as [[] [] [] [] [] [] [] []]; reflexivity. Qed.

Lemma upper_idem s : upper (upper s) = upper s.
Proof.
  unfold upper. rewrite list_ascii_of_string_of_list_ascii.
  unfold upper_chars. rewrite map_map. f_equal.
  apply map_ext. apply upper_char_idem.
Qed.

Lemma upper_chars_fixed l :
  Forall (fun c => is_lower c = false) l -> upper_chars l = l.
Proof.
  induction 1 as [|c l Hc _ IH]; simpl; auto.
  unfold upper_char at 1. now rewrite Hc, IH.
Qed.

Lemma upper_chars_not_lower l :
  Forall (fun c => is_lower c = false) (upper_chars l).
Proof.
  induction l as [|c l IH]; simpl; constructor; auto.
  apply upper_char_not_lower.
Qed.

(** *** The shape of a capture *)

Lemma ident_is_name s cap r : ident s = Some (cap, r) -> is_name cap = true.
Proof.
  unfold ident. destruct (span is_word s) as [w b] eqn:E.
  pose proof (span_all _ _ _ _ E) as Hw.
  destruct w as [|c0 w]; [discriminate|].
  assert (Hone : Some (c0 :: w, b) = Some (cap, r) -> is_name cap = true).
  { intros [= <- <-]. unfold is_name.
    rewrite <- (app_nil_r (c0 :: w)).
    now rewrite (span_exact is_word (c0 :: w) [] Hw I). }
  destruct b as [|d b]; auto.
  destruct (Ascii.eqb d "."%char) eqn:Ed.
  - apply Ascii.eqb_eq in Ed. subst d.
    destruct (span is_word b) as [w2 b2] eqn:E2.
    pose proof (span_all _ _ _ _ E2) as Hw2.
    destruct w2 as [|c2 w2]; auto.
    intros [= <- <-]. unfold is_name.
    pose proof (span_exact is_word (c0 :: w) ("."%char :: c2 :: w2) Hw
                  eq_refl) as Hsp.
    cbn [app] in *. rewrite Hsp.
    unfold all_word. apply forallb_forall.
    now apply Forall_forall.
  - destruct d as [[] [] [] [] [] [] [] []]; auto; discriminate.
Qed.

(** A match ends with a match of the identifier. *)
Lemma match_here_ident p : forall s cap r,
  match_here p s = Some (cap, r) ->
  exists pre s', s = pre ++ s' /\ ident s' = Some (cap, r).
Proof.
  induction p as [|k p IH]; intros s cap r H; simpl in H.
  - exists [], s. auto.
  - destruct (lit k s) as [s1|] eqn:E1; [|discriminate].
    destruct (ws_plus s1) as [s2|] eqn:E2; [|discriminate].
    apply lit_app in E1. apply ws_plus_inv in E2.
    destruct E2 as [c [ws [-> _]]].
    apply IH in H. destruct H as [pre [s' [-> H]]].
    exists (k ++ c :: ws ++ pre), s'. split; auto.
    subst s. repeat (rewrite <- app_assoc; cbn [app]). reflexivity.
Qed.

Lemma capture_inside p s k cap :
  In cap (scan p s k) ->
  is_name cap = true /\ exists pre post, s = pre ++ cap ++ post.
Proof.
  intros H. apply scan_sound in H.
  destruct H as [pre [suf [rest [-> Hm]]]].
  apply match_here_ident in Hm. destruct Hm as [pre' [s' [-> Hi]]].
  split; [eapply ident_is_name; eauto|].
  apply ident_inv in Hi. destruct Hi as [-> _].
  exists (pre ++ pre'), rest. now rewrite <- app_assoc.
Qed.

Lemma found_is_upper_name p sql t :
  In t (findall p (upper sql)) ->
  upper t = t /\ is_name (list_ascii_of_string t) = true.
Proof.
  unfold findall. intros H. apply in_map_iff in H.
  destruct H as [cap [<- H]]. apply capture_inside in H.
  destruct H as [Hname [pre [post Heq]]].
  rewrite list_ascii_of_string_of_list_ascii. split; auto.
  unfold upper. rewrite list_ascii_of_string_of_list_ascii. f_equal.
  apply upper_chars_fixed.
  assert (Hall : Forall (fun c => is_lower c = false)
                        (list_ascii_of_string (upper sql))).
  { unfold upper. rewrite list_ascii_of_string_of_list_ascii.
    apply upper_chars_not_lower. }
  rewrite Heq in Hall. apply Forall_app in Hall. destruct Hall as [_ Hall].
  apply Forall_app in Hall. tauto.
Qed.

(** X15.  [_parse_sql_tables] does not depend on the case of the text (the
    upper-cased text gives the same sets), and every table it returns is
    in upper case and is one name, or two names joined by a dot, each a
    non-empty run of word characters. *)
Theorem resolved_tables_are_upper_case_names (sql : string) :
  _parse_sql_tables (upper sql) = _parse_sql_tables sql
  /\ forall t,
       In t (fst (_parse_sql_tables sql))
       \/ In t (snd (_parse_sql_tables sql)) ->
       upper t = t /\ is_name (list_ascii_of_string t) = true.
Proof.
  split.
  - unfold _parse_sql_tables. now rewrite upper_idem.
  - intros t [H|H].
    + apply sources_spec in H.
      destruct H as [H|H]; eapply found_is_upper_name; eauto.
    + apply targets_spec in H.
      destruct H as [H|[H|H]]; eapply found_is_upper_name; eauto.
Qed.

Lemma resolved_tables_are_upper_case_names_witness :
  upper "dbo.Orders_2024" <> "dbo.Orders_2024"
  /\ upper "DBO.ORDERS_2024" = "DBO.ORDERS_2024"
  /\ is_name (list_ascii_of_string "DBO.ORDERS_2024") = true.
Proof.
  split; [vm_compute; discriminate|].
  apply (proj2 (resolved_tables_are_upper_case_names
                  "update dbo.Orders_2024 set x = 1")).
  right. vm_compute. auto.
Defined.

(** *** Texts without keywords *)

Lemma scan_without_keyword k ks s n :
  contains_chars k s = false -> scan (k :: ks) s n = [].
Proof.
  intros Hno. destruct (scan (k :: ks) s n) as [|cap l] eqn:E; auto.
  exfalso. assert (Hin : In cap (scan (k :: ks) s n))
    by (rewrite E; now left).
  apply scan_sound in Hin. destruct Hin as [pre [suf [rest [-> Hm]]]].
  simpl in Hm. destruct (lit k suf) as [r|] eqn:El; [|discriminate].
  apply lit_app in El. subst suf.
  rewrite contains_chars_inside in Hno. discriminate.
Qed.

Lemma findall_without_keyword k ks s :
  contains (string_of_list_ascii k) s = false -> findall (k :: ks) s = [].
Proof.
  unfold contains, findall.
  rewrite list_ascii_of_string_of_list_ascii. intros H.
  now rewrite scan_without_keyword.
Qed.

(** X16.  A text whose upper-case form holds neither [FROM] nor [JOIN] has
    no source table, and one that holds none of [INSERT], [UPDATE] and
    [DELETE] has no target table; the empty text has neither. *)
Theorem no_keyword_no_table (sql : string) :
  (contains "FROM" (upper sql) = false ->
   contains "JOIN" (upper sql) = false ->
   fst (_parse_sql_tables sql) = [])
  /\ (contains "INSERT" (upper sql) = false ->
      contains "UPDATE" (upper sql) = false ->
      contains "DELETE" (upper sql) = false ->
      snd (_parse_sql_tables sql) = []).
Proof.
  unfold _parse_sql_tables. cbv zeta. cbn [fst snd]. split.
  - intros Hf Hj.
    assert (H1 : findall from_pattern (upper sql) = [])
      by exact (findall_without_keyword (kw "FROM") [] _ Hf).
    assert (H2 : findall join_pattern (upper sql) = [])
      by exact (findall_without_keyword (kw "JOIN") [] _ Hj).
    now rewrite H1, H2.
  - intros Hi Hu Hd.
    assert (H1 : findall insert_pattern (upper sql) = [])
      by exact (findall_without_keyword (kw "INSERT") [kw "INTO"] _ Hi).
    assert (H2 : findall update_pattern (upper sql) = [])
      by exact (findall_without_keyword (kw "UPDATE") [] _ Hu).
    assert (H3 : findall delete_pattern (upper sql) = [])
      by exact (findall_without_keyword (kw "DELETE") [kw "FROM"] _ Hd).
    now rewrite H1, H2, H3.
Qed.

Lemma no_keyword_no_table_witness :
  fst (_parse_sql_tables "") = []
  /\ snd (_parse_sql_tables "EXEC dbo.usp_Refresh @from = 1") = [].
Proof.
  split.
  - apply (proj1 (no_keyword_no_table "")); reflexivity.
  - apply (proj2 (no_keyword_no_table "EXEC dbo.usp_Refresh @from = 1"));
      reflexivity.
Defined.

End ResolverProperties.

(* ================================================================= *)
(** ** Texts of several statements *)

Module StatementProperties.
Import Text Regex Extractor Shape Statements.
Import RegexFacts ShapeFacts PySetFacts ResolverClaims ResolverProperties.

Lemma span_sep p a b :
  p ";"%char = false ->
  span p (a ++ ";"%char :: b) = (fst (span p a), snd (span p a) ++ ";"%char :: b).
Proof.
  intros Hp. induction a as [|c a IH]; simpl.
  - now rewrite Hp.
  - destruct (p c); [|reflexivity].
    rewrite IH. now destruct (span p a).
Qed.

Lemma lit_sep k : forall a b,
  forallb (fun c => negb (Ascii.eqb c ";"%char)) k = true ->
  lit k (a ++ ";"%char :: b)
  = option_map (fun r => r ++ ";"%char :: b) (lit k a).
Proof.
  induction k as [|x k IH]; intros a b Hk; simpl; auto.
  simpl in Hk. apply andb_true_iff in Hk. destruct Hk as [Hx Hk].
  destruct a as [|y a]; simpl.
  - now destruct (Ascii.eqb x ";"%char).
  - destruct (Ascii.eqb x y); auto.
Qed.

Lemma ws_plus_sep a b :
  ws_plus (a ++ ";"%char :: b)
  = option_map (fun r => r ++ ";"%char :: b) (ws_plus a).
Proof.
  unfold ws_plus. rewrite span_sep by reflexivity.
  destruct (span is_space a) as [[|c ws] r]; reflexivity.
Qed.

(** The identifier, with the test for the dot written as a test. *)
Lemma ident_eq s :
  ident s
  = match span is_word s with
    | ([], _) => None
    | (c0 :: w, r) =>
        match r with
        | [] => Some (c0 :: w, r)
        | d :: r' =>
            if Ascii.eqb d "."%char then
              match span is_word r' with
              | ([], _) => Some (c0 :: w, r)
              | (c2 :: w2, r2) => Some ((c0 :: w) ++ d :: c2 :: w2, r2)
              end
            else Some (c0 :: w, r)
        end
    end.
Proof.
  unfold ident. destruct (span is_word s) as [[|c0 w] r]; auto.
  destruct r as [|d r']; auto.
  destruct (Ascii.eqb d "."%char) eqn:E.
  - apply Ascii.eqb_eq in E. subst d.
    destruct (span is_word r') as [[|c2 w2] r2]; reflexivity.
  - destruct d as [[] [] [] [] [] [] [] []]; first [reflexivity|discriminate].
Qed.

Lemma ident_sep a b : ident (a ++ ";"%char :: b) = followed_by b (ident a).
Proof.
  rewrite !ident_eq. rewrite span_sep by reflexivity.
  destruct (span is_word a) as [[|c0 w] r]; cbn [fst snd]; auto.
  destruct r as [|d r']; cbn [app]; auto.
  destruct (Ascii.eqb d "."%char); auto.
  rewrite span_sep by reflexivity.
  destruct (span is_word r') as [[|c2 w2] r2]; reflexivity.
Qed.

Lemma match_here_sep p : forall a b,
  semicolon_free p = true ->
  match_here p (a ++ ";"%char :: b) = followed_by b (match_here p a).
Proof.
  induction p as [|k p IH]; intros a b Hp; simpl.
  - apply ident_sep.
  - unfold semicolon_free in Hp. simpl in Hp.
    apply andb_true_iff in Hp. destruct Hp as [Hk Hp].
    rewrite lit_sep by exact Hk.
    destruct (lit k a) as [r|]; simpl; auto.
    rewrite ws_plus_sep. destruct (ws_plus r) as [r'|]; simpl; auto.
Qed.

Lemma match_here_nil p : match_here p [] = None.
Proof. destruct p as [|[|c k] p]; reflexivity. Qed.

Lemma match_here_rest p : forall s cap r,
  match_here p s = Some (cap, r) -> List.length r <= List.length s.
Proof.
  intros s cap r H. apply match_here_ident in H.
  destruct H as [pre [s' [-> H]]]. apply ident_inv in H.
  destruct H as [-> _]. rewrite !length_app. lia.
Qed.

(** The scan of a text, a semicolon and more text is the scan of the one
    followed by the scan of the other. *)
Lemma scan_sep p a b :
  semicolon_free p = true ->
  forall k, k <= List.length a ->
            scan p (a ++ ";"%char :: b) k = scan p a k ++ scan p b 0.
Proof.
  intros Hp. induction a as [|c a IH]; intros k Hk.
  - assert (k = 0) by (simpl in Hk; lia). subst k.
    cbn [app scan].
    change (";"%char :: b) with ([] ++ ";"%char :: b).
    rewrite (match_here_sep p [] b Hp), match_here_nil. reflexivity.
  - cbn [app scan]. destruct k as [|k].
    + change (c :: a ++ ";"%char :: b) with ((c :: a) ++ ";"%char :: b).
      rewrite (match_here_sep p (c :: a) b Hp).
      destruct (match_here p (c :: a)) as [[cap rest]|] eqn:E; cbn [followed_by].
      * apply match_here_rest in E. cbn [List.length] in E.
        replace (List.length ((c :: a) ++ ";"%char :: b)
                 - List.length (rest ++ ";"%char :: b) - 1)
          with (List.length (c :: a) - List.length rest - 1)
          by (rewrite !length_app; cbn [List.length]; lia).
        rewrite IH by (cbn [List.length]; lia). reflexivity.
      * apply IH. lia.
    + apply IH. simpl in Hk. lia.
Qed.

Lemma upper_chars_sep a b :
  upper_chars (a ++ ";"%char :: b) = upper_chars a ++ ";"%char :: upper_chars b.
Proof. unfold upper_chars. now rewrite map_app. Qed.

Lemma findall_sequence p s1 s2 :
  semicolon_free p = true ->
  findall p (upper (sequence s1 s2))
  = findall p (upper s1) ++ findall p (upper s2).
Proof.
  intros Hp. unfold findall, upper, sequence.
  rewrite !list_ascii_of_string_of_list_ascii, !chars_append.
  cbn [list_ascii_of_string app]. rewrite upper_chars_sep.
  rewrite scan_sep by (auto; lia). now rewrite map_app.
Qed.

(** X17.  Two statements separated by a semicolon are resolved
    independently: the sources of the sequence are those of the first
    statement and those of the second, and so are the targets. *)
Theorem statements_resolve_independently (s1 s2 t : string) :
  (In t (fst (_parse_sql_tables (sequence s1 s2)))
   <-> In t (fst (_parse_sql_tables s1))
       \/ In t (fst (_parse_sql_tables s2)))
  /\ (In t (snd (_parse_sql_tables (sequence s1 s2)))
      <-> In t (snd (_parse_sql_tables s1))
          \/ In t (snd (_parse_sql_tables s2))).
Proof.
  rewrite !sources_spec, !targets_spec.
  rewrite !findall_sequence by reflexivity.
  rewrite !in_app_iff. tauto.
Qed.

End StatementProperties.

(* ================================================================= *)
(** ** Connection strings *)

Module ConnectionProperties.
Import Text Regex Xml Connections.
Import RegexFacts ShapeFacts ResolverProperties.

Lemma not_semicolon_spec c : not_semicolon c = true <-> c <> ";"%char.
Proof.
  unfold not_semicolon. destruct (Ascii.eqb c ";"%char) eqn:E.
  - apply Ascii.eqb_eq in E. subst. split; [discriminate|congruence].
  - apply Ascii.eqb_neq in E. tauto.
Qed.

Lemma no_semicolon_chars l :
  Forall (fun c => c <> ";"%char) l
  <-> contains_chars [";"%char] l = false.
Proof.
  induction l as [|c l IH]; cbn [contains_chars prefix_of].
  - split; auto.
  - rewrite andb_true_r. split.
    + intros H. inversion H as [|? ? Hc Hl]; subst.
      apply IH in Hl. rewrite Hl, orb_false_r.
      apply Ascii.eqb_neq. congruence.
    + intros H. apply orb_false_iff in H. destruct H as [Hc Hl].
      apply Ascii.eqb_neq in Hc. constructor; [congruence|].
      now apply IH.
Qed.

(** What a match is: the key, then the longest run without a semicolon,
    which is not empty. *)
Lemma search_catalog_sound s : forall db,
  search_catalog s = Some db ->
  db <> []
  /\ Forall (fun c => c <> ";"%char) db
  /\ exists before after,
       s = before ++ catalog_key ++ db ++ after
       /\ match after with [] => True | c :: _ => c = ";"%char end.
Proof.
  induction s as [|c s IH]; intros db H; [discriminate|].
  assert (Hlater : search_catalog s = Some db ->
            db <> []
            /\ Forall (fun c => c <> ";"%char) db
            /\ exists before after,
                 c :: s = before ++ catalog_key ++ db ++ after
                 /\ match after with [] => True | c :: _ => c = ";"%char end).
  { intros H'. destruct (IH db H') as [Hne [Hall [before [after [-> Ha]]]]].
    repeat split; auto. exists (c :: before), after. auto. }
  cbn [search_catalog] in H.
  destruct (lit catalog_key (c :: s)) as [r|] eqn:El; auto.
  destruct (span not_semicolon r) as [[|d db'] after] eqn:Es; auto.
  injection H as <-.
  apply lit_app in El. pose proof (span_app _ _ _ _ Es) as Hr.
  pose proof (span_all _ _ _ _ Es) as Hall.
  pose proof (span_stop _ _ _ _ Es) as Hstop.
  repeat split.
  - discriminate.
  - eapply Forall_impl; [|exact Hall]. intros x. apply not_semicolon_spec.
  - exists [], after. split.
    + now rewrite El, Hr.
    + destruct after as [|x after]; auto.
      destruct (Ascii.eqb x ";"%char) eqn:E.
      * now apply Ascii.eqb_eq.
      * unfold not_semicolon in Hstop. rewrite E in Hstop. discriminate.
Qed.

Lemma catalog_key_no_semicolon : ~ In ";"%char catalog_key.
Proof. vm_compute. intuition discriminate. Qed.

(** The value that follows the first occurrence of the key is found. *)
Lemma search_catalog_complete before db after :
  before = [] \/ (exists b, before = b ++ [";"%char]) ->
  contains_chars catalog_key before = false ->
  db <> [] -> Forall (fun c => c <> ";"%char) db ->
  match after with [] => True | c :: _ => c = ";"%char end ->
  search_catalog (before ++ catalog_key ++ db ++ after) = Some db.
Proof.
  intros Hend Hno Hne Hdb Hafter.
  assert (Hspan : span not_semicolon (db ++ after) = (db, after)).
  { apply span_exact.
    - eapply Forall_impl; [|exact Hdb]. intros x. apply not_semicolon_spec.
    - destruct after as [|x after]; auto. now subst x. }
  induction before as [|c before IH].
  - cbn [app]. change (catalog_key ++ db ++ after)
      with ("I"%char :: (tl catalog_key ++ db ++ after)).
    cbn [search_catalog].
    change ("I"%char :: (tl catalog_key ++ db ++ after))
      with (catalog_key ++ db ++ after).
    rewrite lit_exact, Hspan. destruct db; [congruence|reflexivity].
  - cbn [app search_catalog].
    assert (Hnone : lit catalog_key (c :: before ++ catalog_key ++ db ++ after)
                    = None).
    { destruct (lit catalog_key
                  (c :: before ++ catalog_key ++ db ++ after)) as [r|] eqn:El;
        auto. exfalso. apply lit_app in El.
      change (c :: before ++ catalog_key ++ db ++ after)
        with ((c :: before) ++ catalog_key ++ db ++ after) in El.
      apply app_eq_app in El. destruct El as [l [[Hb _]|[Hk _]]].
      - rewrite Hb in Hno.
        pose proof (contains_chars_inside catalog_key [] l) as Hc.
        cbn [app] in Hc. rewrite Hc in Hno. discriminate.
      - destruct Hend as [Hnil|[b Hb]]; [discriminate|].
        apply catalog_key_no_semicolon. rewrite Hk, Hb.
        apply in_or_app. left. apply in_or_app. right. now left. }
    rewrite Hnone. apply IH.
    + destruct Hend as [Hnil|[b Hb]]; [discriminate|].
      destruct b as [|x b]; simpl in Hb.
      * injection Hb as -> <-. now left.
      * injection Hb as -> ->. right. now exists b.
    + simpl in Hno. apply orb_false_iff in Hno. tauto.
Qed.

(** X18.  Every database that [_extract_connections] logs is not empty,
    holds no semicolon, and stands in the connection string of one of
    the connection managers right after [Initial Catalog=], up to the
    next semicolon or the end of the string. *)
Theorem logged_database_is_a_catalog (root : Element) (database : string) :
  In database (logged_databases root) ->
  database <> ""
  /\ contains ";" database = false
  /\ exists conn before after,
       In conn (findall_tag (DTS "ConnectionManager") root)
       /\ get_default conn (DTS "ConnectionString") ""
          = String.append before
              (String.append "Initial Catalog="
                 (String.append database after))
       /\ (after = "" \/ exists rest, after = String.append ";" rest).
Proof.
  unfold logged_databases. intros H. apply in_flat_map in H.
  destruct H as [conn [Hconn H]].
  destruct (database_of (get_default conn (DTS "ConnectionString") ""))
    as [db|] eqn:E; [|contradiction].
  destruct H as [<-|[]]. unfold database_of in E.
  destruct (search_catalog _) as [l|] eqn:Es; [|discriminate].
  injection E as <-. apply search_catalog_sound in Es.
  destruct Es as [Hne [Hall [before [after [Heq Hafter]]]]].
  repeat split.
  - destruct l; [congruence|discriminate].
  - unfold contains. rewrite list_ascii_of_string_of_list_ascii.
    now apply no_semicolon_chars.
  - exists conn, (string_of_list_ascii before), (string_of_list_ascii after).
    repeat split; auto.
    + rewrite <- (string_of_list_ascii_of_string
                    (get_default conn (DTS "ConnectionString") "")).
      rewrite Heq, !string_of_app. reflexivity.
    + destruct after as [|c after]; [now left|right].
      subst c. now exists (string_of_list_ascii after).
Qed.

Lemma logged_database_is_a_catalog_witness :
  let root :=
    Elem "root" [] None
      [Elem (DTS "ConnectionManager")
            [(DTS "ConnectionString",
              "Data Source=.;Initial Catalog=Sales;Provider=SQLNCLI11;")]
            None []] in
  logged_databases root = ["Sales"] /\ "Sales" <> "".
Proof.
  intros root. split; [reflexivity|].
  apply (logged_database_is_a_catalog root "Sales"). simpl. auto.
Defined.

(** X19.  In a connection string in which [Initial Catalog=] first
    occurs at the start or right after a semicolon, followed by a
    non-empty value without semicolon that ends at a semicolon or at the
    end of the string, the database found is that value. *)
Theorem database_of_connection_string (before database after : string) :
  before = "" \/ (exists b, before = String.append b ";") ->
  contains "Initial Catalog=" before = false ->
  database <> "" -> contains ";" database = false ->
  after = "" \/ (exists rest, after = String.append ";" rest) ->
  database_of
    (String.append before
       (String.append "Initial Catalog=" (String.append database after)))
  = Some database.
Proof.
  intros Hb Hno Hne Hdb Ha. unfold database_of.
  rewrite !chars_append.
  change (list_ascii_of_string "Initial Catalog=") with catalog_key.
  rewrite search_catalog_complete.
  - simpl. now rewrite string_of_list_ascii_of_string.
  - destruct Hb as [->|[b ->]]; [now left|right].
    exists (list_ascii_of_string b). now rewrite chars_append.
  - exact Hno.
  - destruct database; [congruence|discriminate].
  - now apply no_semicolon_chars.
  - destruct Ha as [->|[rest ->]]; simpl; auto.
Qed.

Lemma database_of_connection_string_witness :
  database_of "Data Source=.;Initial Catalog=Sales;Integrated Security=SSPI;"
  = Some "Sales".
Proof.
  apply (database_of_connection_string "Data Source=.;" "Sales"
           ";Integrated Security=SSPI;").
  - right. now exists "Data Source=.".
  - reflexivity.
  - discriminate.
  - reflexivity.
  - right. now exists "Integrated Security=SSPI;".
Defined.

End ConnectionProperties.
